(** * Earth Engine command line utilities: configuration and task waiting

    A shallow embedding of [python/ee/cli/utils.py]: the configuration
    object [CommandLineConfig] (load, [ee_init], [save]) and the polling
    waiters [wait_for_task] and [wait_for_tasks], followed by the properties
    of the specification proved (or refuted) on that embedding.

    Conventions of the embedding:
    - Python values read from the JSON configuration file are [json] values;
      [None] is [JNull], a [dict] is a [gmap string json].
    - Time is a rational number of seconds ([Q]), and the arithmetic on
      times is exact.  The source computes on floats: module [Binary64]
      embeds [wait_for_task] once more with binary64 arithmetic.  When the
      clock and the timeout are whole seconds the two embeddings make the
      same run ([Agreement.wait_for_task_agrees]); otherwise rounding can
      make them differ ([Binary64Facts.wait_never_ends]).
    - The clock advances only when the program sleeps, by exactly the
      duration slept: a status fetch or a print takes no time, so the
      clock read at line 106 is also the time of the fetch of line 107 and
      of the progress line of line 118.
    - Console output, status fetches and sleeps are recorded, in program
      order, as the list of [Event]s a computation emits.
    - The [while True] loop of [wait_for_task] is bounded by a fuel argument;
      running out of fuel is the distinguished result [OutOfFuel], and the
      termination theorems show that it does not occur once the fuel
      exceeds [polls_bound timeout]. *)

From Stdlib Require Import QArith Qminmax Qround Lqa ZArith String List.
From stdpp Require Import gmap strings list fin_maps.

#[local] Set Warnings "-register-all".

(* ===================================================================== *)
(** * Python runtime: exceptions, results, values                         *)
(* ===================================================================== *)

Module Py.

(** The exceptions the modelled code can raise or let through. *)
Inductive Exn :=
| IndexError                     (* [l[0]] on an empty list *)
| AttributeError                 (* [.get] on a value that is no dict *)
| ValueError                     (* [json.load] on malformed content *)
| IOError                        (* [open(path, 'w')] on an unwritable path *)
| EEException (msg : string).    (* a failure reported by the remote service *)

(** Result of running a piece of code: a value, a raised exception, or
    the loop bound of the model exhausted. *)
Inductive Res (A : Type) :=
| Ok (a : A)
| Raise (e : Exn)
| OutOfFuel.
Arguments Ok {A} a.
Arguments Raise {A} e.
Arguments OutOfFuel {A}.

Definition res_bind {A B} (r : Res A) (k : A -> Res B) : Res B :=
  match r with
  | Ok a => k a
  | Raise e => Raise e
  | OutOfFuel => OutOfFuel
  end.

(** Values produced by [json.load] and accepted by [json.dump]; of the
    numbers, the integers. *)
Inductive json :=
| JNull
| JBool (b : bool)
| JInt (z : Z)
| JStr (s : string)
| JList (l : list json)
| JDict (d : gmap string json).

(** Python truth value of a JSON value, as tested by [if v:] and [and]. *)
Definition truthy (v : json) : bool :=
  match v with
  | JNull => false
  | JBool b => b
  | JInt z => negb (Z.eqb z 0)
  | JStr s => negb (String.eqb s "")
  | JList l => match l with [] => false | _ => true end
  | JDict d => negb (bool_decide (d = ∅))
  end.

(** [v is not None] *)
Definition is_not_None (v : json) : bool :=
  match v with JNull => false | _ => true end.

(** [d.get(key, default)]; only dicts have a [get] method. *)
Definition dict_get (config : json) (key : string) (default_value : json)
  : Res json :=
  match config with
  | JDict d => Ok (default default_value (d !! key))
  | _ => Raise AttributeError
  end.

(** POSIX [os.path.join] of two components. *)
Definition path_join (a b : string) : string :=
  if String.prefix "/" b then b
  else if String.eqb a "" then b
  else if String.eqb (String.substring (String.length a - 1) 1 a) "/"
       then a ++ b
       else a ++ "/" ++ b.

End Py.
Export Py.

Declare Scope res_scope.
Delimit Scope res_scope with res.
Notation "x <- c ;; k" := (res_bind c (fun x => k))
  (at level 100, c at next level, right associativity) : res_scope.

(* ===================================================================== *)
(** * Configuration store                                                 *)
(* ===================================================================== *)

Module Config.

(** What the configuration code sees of the operating system. *)
Inductive FileData :=
| JsonFile (v : json)            (* a file holding the JSON value [v] *)
| NotJson.                       (* a file [json.load] rejects *)

Record OS := {
  environ : gmap string string;      (* [os.environ] *)
  files : gmap string FileData;      (* existing paths and their content *)
  writable : string -> bool          (* can [open(path, 'w')] succeed *)
}.

Definition EE_CONFIG_FILE : string := "EE_CONFIG_FILE".
Definition DEFAULT_EE_CONFIG_FILE_RELATIVE : string :=
  path_join (path_join ".config" "earthengine") "credentials".

Definition PRODUCTION_URL : string := "https://earthengine.googleapis.com".

(** [CONFIG_PARAMS]: parameter names with their built-in defaults. *)
Definition CONFIG_PARAMS : list (string * json) :=
  [ ("url", JStr PRODUCTION_URL);
    ("account", JNull);
    ("private_key", JNull);
    ("refresh_token", JNull) ].

(** Instances of [CommandLineConfig]. *)
Record CommandLineConfig := {
  config_file : string;
  url : json;
  account : json;
  private_key : json;
  refresh_token : json
}.

(** [setattr(self, key, value)] for the attributes of the class. *)
Definition setattr (self : CommandLineConfig) (key : string) (value : json)
  : CommandLineConfig :=
  if String.eqb key "url" then
    {| config_file := config_file self; url := value;
       account := account self; private_key := private_key self;
       refresh_token := refresh_token self |}
  else if String.eqb key "account" then
    {| config_file := config_file self; url := url self;
       account := value; private_key := private_key self;
       refresh_token := refresh_token self |}
  else if String.eqb key "private_key" then
    {| config_file := config_file self; url := url self;
       account := account self; private_key := value;
       refresh_token := refresh_token self |}
  else if String.eqb key "refresh_token" then
    {| config_file := config_file self; url := url self;
       account := account self; private_key := private_key self;
       refresh_token := value |}
  else self.

(** [getattr(self, key)] *)
Definition getattr (self : CommandLineConfig) (key : string) : Res json :=
  if String.eqb key "url" then Ok (url self)
  else if String.eqb key "account" then Ok (account self)
  else if String.eqb key "private_key" then Ok (private_key self)
  else if String.eqb key "refresh_token" then Ok (refresh_token self)
  else Raise AttributeError.

(** Credentials handed to [ee.Initialize]. *)
Inductive Credentials :=
| ServiceAccountCredentials (email key_data : json)
| OAuth2Credentials (access_token : json) (client_id client_secret : string)
    (refresh_token_ : json) (token_expiry : json) (token_uri : string)
    (user_agent : json)
| Persistent.                    (* the string ['persistent'] *)

(** The call [ee.Initialize(credentials=..., opt_url=...)]. *)
Inductive EeCall :=
| Initialize (credentials : Credentials) (opt_url : json).

Definition TOKEN_URI : string := "https://accounts.google.com/o/oauth2/token".

Section Host.
(** [os.path.expanduser('~')], fixed when the module is imported. *)
Variable HOMEDIR : string.
(** [ee.oauth.CLIENT_ID] and [ee.oauth.CLIENT_SECRET]. *)
Variables CLIENT_ID CLIENT_SECRET : string.

Definition DEFAULT_EE_CONFIG_FILE : string :=
  path_join HOMEDIR DEFAULT_EE_CONFIG_FILE_RELATIVE.

(** Lines 51-53 of [__init__]: the path the configuration is read from.
    The argument is [None] or a string; [not config_file] holds for
    [None] and for the empty string. *)
Definition resolve_config_file (config_file : option string)
    (os : OS) : string :=
  match config_file with
  | Some p =>
      if negb (String.eqb p "") then p
      else default DEFAULT_EE_CONFIG_FILE (environ os !! EE_CONFIG_FILE)
  | None => default DEFAULT_EE_CONFIG_FILE (environ os !! EE_CONFIG_FILE)
  end.

(** Lines 54-57: the dict the parameters are read from. *)
Definition read_config (path : string) (os : OS) : Res json :=
  match files os !! path with
  | Some (JsonFile v) => Ok v
  | Some NotJson => Raise ValueError
  | None => Ok (JDict ∅)
  end.

(** Lines 58-59: one [setattr] per entry of [CONFIG_PARAMS]. *)
Fixpoint set_params (config : json) (params : list (string * json))
    (self : CommandLineConfig) : Res CommandLineConfig :=
  match params with
  | [] => Ok self
  | (key, default_value) :: rest =>
      (value <- dict_get config key default_value ;;
       set_params config rest (setattr self key value))%res
  end.

(** [CommandLineConfig.__init__] *)
Definition init (config_file : option string) (os : OS)
  : Res CommandLineConfig :=
  let config_file := resolve_config_file config_file os in
  let self := {| config_file := config_file; url := JNull;
                 account := JNull; private_key := JNull;
                 refresh_token := JNull |} in
  (config <- read_config config_file os ;;
   set_params config CONFIG_PARAMS self)%res.

(** [CommandLineConfig.ee_init]: the credentials chosen. *)
Definition credentials_of (self : CommandLineConfig) : Credentials :=
  if truthy (account self) && truthy (private_key self) then
    ServiceAccountCredentials (account self) (private_key self)
  else if truthy (refresh_token self) then
    OAuth2Credentials JNull CLIENT_ID CLIENT_SECRET
      (refresh_token self) JNull TOKEN_URI JNull
  else Persistent.

Definition ee_init (self : CommandLineConfig) : EeCall :=
  Initialize (credentials_of self) (url self).

(** Lines 75-79 of [save]: the dict that is dumped. *)
Fixpoint collect_params (self : CommandLineConfig) (keys : list string)
    (config : gmap string json) : Res (gmap string json) :=
  match keys with
  | [] => Ok config
  | key :: rest =>
      (value <- getattr self key ;;
       collect_params self rest
         (if is_not_None value then <[key := value]> config
          else config))%res
  end.

(** [CommandLineConfig.save]: the operating system after the write. *)
Definition save (self : CommandLineConfig) (os : OS) : Res OS :=
  (config <- collect_params self (CONFIG_PARAMS.*1) ∅ ;;
   if writable os (config_file self) then
     Ok {| environ := environ os;
           files := <[config_file self := JsonFile (JDict config)]>
                      (files os);
           writable := writable os |}
   else Raise IOError)%res.

End Host.

End Config.

(* ===================================================================== *)
(** * Task waiting                                                        *)
(* ===================================================================== *)

Module Waiter.

Local Open Scope Q_scope.

(** Modelled from the spec: the record [ee.data.getTaskStatus] returns for
    a task, "{state: enum, error_message?: string}".  The states are the
    string constants of [ee.batch.Task.State]. *)
Record Status := {
  state : string;
  error_message : option string      (* [status.get('error_message', None)] *)
}.

(** Modelled from the spec: the terminal members of [ee.batch.Task.State],
    "COMPLETED, FAILED, CANCELLED". *)
Definition COMPLETED : string := "COMPLETED".
Definition FAILED : string := "FAILED".
Definition CANCELLED : string := "CANCELLED".

Definition TASK_FINISHED_STATES : list string :=
  [COMPLETED; FAILED; CANCELLED].

(** [state in TASK_FINISHED_STATES] *)
Definition finished (st : string) : bool :=
  bool_decide (st ∈ TASK_FINISHED_STATES).

(** The argument of [ee.data.getTaskStatus]: one id, or a list of ids. *)
Inductive FetchArg :=
| OneId (task_id : string)
| IdList (task_ids : list string).

(** What a status fetch produces: an exception or a list of statuses. *)
Definition Response : Type := Exn + list Status.

(** The remote service as one thread observes it: the answer to a fetch
    may depend on how many fetches the thread made before, on the time of
    the fetch, and on its argument. *)
Definition Service : Type := nat -> Q -> FetchArg -> Response.

(** Lines printed on the console. *)
Inductive Line :=
| TaskEnded (task_id st : string) (elapsed : Q)
    (* 'Task %s ended at state: %s after %.2f seconds' *)
| ErrorLine (msg : string)
    (* 'Error: %s' *)
| CurrentState (now : Q) (task_id st : string)
    (* '[{:%H:%M:%S}] Current state for task {}: {}' *)
| TimedOut (task_id : string) (elapsed : Q)
    (* 'Wait for task %s timed out after %.2f seconds' *)
| SummaryHeader
    (* 'Finished waiting for tasks.\n  Status summary:' *)
| TasksCompleted (n : Z)
| TasksFailed (n : Z)
| TasksCancelled (n : Z)
| TasksIncomplete (n : Z).

(** Observable actions of a thread, in program order.  [Worker] stands for
    a whole worker thread that the caller has joined: its task, how it
    ended and what it did. *)
Inductive Event :=
| Fetch (a : FetchArg) (r : Response)
| Sleep (d : Q)
| Print (l : Line)
| Worker (task_id : string) (r : Res unit) (log : list Event).

(** State of a thread: its clock and the number of fetches it made. *)
Record World := { clock : Q; fetches : nat }.

(** Computations: state passing, with a result and the events emitted. *)
Definition M (A : Type) : Type := World -> Res A * World * list Event.

Definition ret {A} (a : A) : M A := fun w => (Ok a, w, []).
Definition raise {A} (e : Exn) : M A := fun w => (Raise e, w, []).
Definition out_of_fuel {A} : M A := fun w => (OutOfFuel, w, []).

Definition bind {A B} (c : M A) (k : A -> M B) : M B := fun w =>
  match c w with
  | (Ok a, w1, evs1) =>
      let '(r, w2, evs2) := k a w1 in (r, w2, evs1 ++ evs2)
  | (Raise e, w1, evs1) => (Raise e, w1, evs1)
  | (OutOfFuel, w1, evs1) => (OutOfFuel, w1, evs1)
  end.

Declare Scope wait_scope.
Delimit Scope wait_scope with wait.
Notation "x <- c ;; k" := (bind c (fun x => k))
  (at level 100, c at next level, right associativity) : wait_scope.
Notation "c ;;; k" := (bind c (fun _ => k))
  (at level 100, right associativity) : wait_scope.

(** [time.time()] and [datetime.now()] read the clock of the thread, which
    only a sleep advances. *)
Definition time_time : M Q := fun w => (Ok (clock w), w, []).
Definition datetime_now : M Q := fun w => (Ok (clock w), w, []).

(** [time.sleep(d)]: the clock advances by [d], exactly. *)
Definition time_sleep (d : Q) : M unit := fun w =>
  (Ok tt, {| clock := clock w + d; fetches := fetches w |}, [Sleep d]).

(** [print(...)] *)
Definition print (l : Line) : M unit := fun w => (Ok tt, w, [Print l]).

(** [ee.data.getTaskStatus(arg)] against the service [svc].  The fetch
    takes no time: the clock stays as it is. *)
Definition getTaskStatus (svc : Service) (arg : FetchArg)
  : M (list Status) := fun w =>
  let r := svc (fetches w) (clock w) arg in
  let w' := {| clock := clock w; fetches := S (fetches w) |} in
  match r with
  | inl e => (Raise e, w', [Fetch arg r])
  | inr l => (Ok l, w', [Fetch arg r])
  end.

(** [l[0]] *)
Definition subscript0 {A} (l : list A) : M A :=
  match l with
  | [] => raise IndexError
  | x :: _ => ret x
  end.

(** Python's [>=] and [>] on numbers. *)
Definition Qgeb (x y : Q) : bool := Qle_bool y x.
Definition Qgtb (x y : Q) : bool := negb (Qle_bool x y).

(** [if error_message:] *)
Definition message_truthy (m : option string) : bool :=
  match m with
  | Some s => negb (String.eqb s "")
  | None => false
  end.

(** How one pass through the body of [while True] ends. *)
Inductive Ctl :=
| Return_                        (* [return] at line 115 *)
| Break_ (elapsed : Q)           (* [break] at line 124 *)
| Continue_ (last_check : Q).    (* end of the body, after the sleep *)

(** How the loop is left. *)
Inductive Exit :=
| Returned
| Broke (elapsed : Q).

Section Wait.
Variable svc : Service.
Variables (task_id : string) (timeout : Q) (log_progress : bool).

(** Lines 116-119: the progress line and the new [last_check]. *)
Definition report_progress (st : string) (elapsed last_check : Q) : M Q :=
  (if log_progress && Qgeb (elapsed - last_check) 30 then
     now <- datetime_now ;;
     print (CurrentState now task_id st) ;;;
     ret elapsed
   else ret last_check)%wait.

(** Lines 106-124: the body of the loop, the elapsed and remaining times
    computed exactly. *)
Definition wait_body (start last_check : Q) : M Ctl :=
  (now <- time_time ;;
   let elapsed := now - start in
   status_list <- getTaskStatus svc (OneId task_id) ;;
   status <- subscript0 status_list ;;
   let st := state status in
   if finished st then
     let error_message := error_message status in
     print (TaskEnded task_id st elapsed) ;;;
     (if message_truthy error_message
      then print (ErrorLine (default "" error_message))
      else ret tt) ;;;
     ret Return_
   else
     last_check <- report_progress st elapsed last_check ;;
     let remaining := timeout - elapsed in
     if Qgtb remaining 0 then
       time_sleep (Qmin 10 remaining) ;;;
       ret (Continue_ last_check)
     else ret (Break_ elapsed))%wait.

(** Lines 105-124: [while True], at most [fuel] passes. *)
Fixpoint wait_loop (fuel : nat) (start last_check : Q) : M Exit :=
  match fuel with
  | O => out_of_fuel
  | S fuel' =>
      (c <- wait_body start last_check ;;
       match c with
       | Return_ => ret Returned
       | Break_ elapsed => ret (Broke elapsed)
       | Continue_ last_check' => wait_loop fuel' start last_check'
       end)%wait
  end.

(** [wait_for_task(task_id, timeout, log_progress)] *)
Definition wait_for_task (fuel : nat) : M unit :=
  (start <- time_time ;;
   x <- wait_loop fuel start 0 ;;
   match x with
   | Returned => ret tt
   | Broke elapsed => print (TimedOut task_id elapsed)
   end)%wait.

End Wait.

(** A started worker thread: its task and the run it performs. *)
Record Thread := {
  th_task : string;
  th_result : Res unit;
  th_end : Q;
  th_log : list Event
}.

(** The service as the calling thread and as each worker observe it. *)
Record Remote := {
  main_thread : Service;
  worker_thread : nat -> Service
}.

(** [collections.defaultdict(int)] read at a key. *)
Definition count_of (status_counts : gmap string Z) (st : string) : Z :=
  default 0%Z (status_counts !! st).

(** Lines 146-148: the tally of the states. *)
Definition tally (status_list : list Status) : gmap string Z :=
  foldl (fun status_counts status =>
           <[state status := (count_of status_counts (state status) + 1)%Z]>
             status_counts)
        ∅ status_list.

Section WaitAll.
Variable remote : Remote.
Variables (timeout : Q) (log_progress : bool) (fuel : nat).

(** [t = threading.Thread(target=wait_for_task, args=...); t.start()]:
    worker number [i] runs [wait_for_task] on a clock of its own that
    starts at the caller's current time. *)
Definition thread_start (i : nat) (task_id : string) : M Thread :=
  fun w =>
    let '(r, w', log) :=
      wait_for_task (worker_thread remote i) task_id timeout log_progress
        fuel {| clock := clock w; fetches := 0 |} in
    (Ok {| th_task := task_id; th_result := r;
           th_end := clock w'; th_log := log |}, w, []).

(** [thread.join()]: returns once the worker has ended, whether it
    returned or raised; the caller's clock is then no earlier than the
    worker's. *)
Definition thread_join (t : Thread) : M unit := fun w =>
  match th_result t with
  | OutOfFuel => (OutOfFuel, w, [])
  | r => (Ok tt,
          {| clock := Qmax (clock w) (th_end t); fetches := fetches w |},
          [Worker (th_task t) r (th_log t)])
  end.

(** Lines 135-140 *)
Fixpoint start_all (i : nat) (task_id_list : list string)
  : M (list Thread) :=
  match task_id_list with
  | [] => ret []
  | task_id :: rest =>
      (t <- thread_start i task_id ;;
       threads <- start_all (S i) rest ;;
       ret (t :: threads))%wait
  end.

(** Lines 142-143 *)
Fixpoint join_all (threads : list Thread) : M unit :=
  match threads with
  | [] => ret tt
  | thread :: rest => (thread_join thread ;;; join_all rest)%wait
  end.

(** Lines 145-155: bulk fetch, tally and summary. *)
Definition summarize (task_id_list : list string) : M unit :=
  (status_list <- getTaskStatus (main_thread remote)
                    (IdList task_id_list) ;;
   let status_counts := tally status_list in
   let num_incomplete :=
     (Z.of_nat (length status_list) - count_of status_counts "COMPLETED"
      - count_of status_counts "FAILED"
      - count_of status_counts "CANCELLED")%Z in
   print SummaryHeader ;;;
   print (TasksCompleted (count_of status_counts "COMPLETED")) ;;;
   print (TasksFailed (count_of status_counts "FAILED")) ;;;
   print (TasksCancelled (count_of status_counts "CANCELLED")) ;;;
   print (TasksIncomplete num_incomplete))%wait.

(** [wait_for_tasks(task_id_list, timeout, log_progress)] *)
Definition wait_for_tasks (task_id_list : list string) : M unit :=
  if Nat.eqb (length task_id_list) 1 then
    (task_id <- subscript0 task_id_list ;;
     wait_for_task (main_thread remote) task_id timeout log_progress
       fuel)%wait
  else
    (threads <- start_all 0 task_id_list ;;
     join_all threads ;;;
     summarize task_id_list)%wait.

End WaitAll.

(** Number of passes through the loop that suffice for [timeout]. *)
Definition polls_bound (timeout : Q) : nat :=
  S (Z.to_nat (Qceiling (timeout / 10))).

(** ** Reading event logs *)

Definition is_fetch (e : Event) : bool :=
  match e with Fetch _ _ => true | _ => false end.
Definition is_sleep (e : Event) : bool :=
  match e with Sleep _ => true | _ => false end.
Definition is_bulk_fetch (e : Event) : bool :=
  match e with Fetch (IdList _) _ => true | _ => false end.
Definition is_summary (e : Event) : bool :=
  match e with
  | Print SummaryHeader | Print (TasksCompleted _) | Print (TasksFailed _)
  | Print (TasksCancelled _) | Print (TasksIncomplete _) => true
  | _ => false
  end.
Definition is_worker (e : Event) : bool :=
  match e with Worker _ _ _ => true | _ => false end.

(** Time slept in a log. *)
Fixpoint slept (log : list Event) : Q :=
  match log with
  | [] => 0
  | Sleep d :: rest => d + slept rest
  | _ :: rest => slept rest
  end.

End Waiter.


(* ===================================================================== *)
(** * Task waiting, with the arithmetic of the source                     *)
(* ===================================================================== *)

From Stdlib Require Import SpecFloat.

(** [time.time()] returns a float, so the elapsed time, the remaining time
    and the duration slept of [wait_for_task] are binary64 numbers.  This
    module embeds the function once more with that arithmetic: the
    operations are those of IEEE 754 binary64, rounding to nearest, ties
    to even.  As in [Waiter], the clock advances only by the sleeps, here
    by the binary64 sum of the clock and the duration slept. *)
Module Binary64.
Import Waiter.

Definition float : Type := spec_float.
Definition prec : Z := 53.
Definition emax : Z := 1024.

Definition add : float -> float -> float := SFadd prec emax.
Definition sub : float -> float -> float := SFsub prec emax.
Definition div : float -> float -> float := SFdiv prec emax.
Definition ltb : float -> float -> bool := SFltb.
Definition leb : float -> float -> bool := SFleb.

(** The float of an integer, as in [0], [10], [30] met by a float. *)
Definition of_int (z : Z) : float := binary_normalize prec emax z 0 false.

(** The remote service as one thread observes it. *)
Definition Service : Type := nat -> float -> FetchArg -> Response.

(** Lines printed on the console by [wait_for_task]. *)
Inductive Line :=
| TaskEnded (task_id st : string) (elapsed : float)
| ErrorLine (msg : string)
| CurrentState (now : float) (task_id st : string)
| TimedOut (task_id : string) (elapsed : float).

Inductive Event :=
| Fetch (a : FetchArg) (r : Response)
| Sleep (d : float)
| Print (l : Line).

Record World := { clock : float; fetches : nat }.

Inductive Exit :=
| Returned
| Broke (elapsed : float).

Section Wait.
Variable svc : Service.
Variables (task_id : string) (timeout : float) (log_progress : bool).

(** Lines 105-124: [while True], at most [fuel] passes. *)
Fixpoint wait_loop (fuel : nat) (start last_check : float) (w : World)
  : Res Exit * World * list Event :=
  match fuel with
  | O => (OutOfFuel, w, [])
  | S fuel' =>
      let elapsed := sub (clock w) start in                   (* line 106 *)
      let r := svc (fetches w) (clock w) (OneId task_id) in   (* line 107 *)
      let w1 := {| clock := clock w; fetches := S (fetches w) |} in
      match r with
      | inl e => (Raise e, w1, [Fetch (OneId task_id) r])
      | inr [] => (Raise IndexError, w1, [Fetch (OneId task_id) r])
      | inr (status :: _) =>
          let st := state status in
          if finished st then                                 (* line 109 *)
            (Ok Returned, w1,
             Fetch (OneId task_id) r
             :: Print (TaskEnded task_id st elapsed)
             :: (if message_truthy (error_message status)
                 then [Print (ErrorLine
                                (default "" (error_message status)))]
                 else []))
          else
            let due :=                                        (* line 116 *)
              log_progress && leb (of_int 30) (sub elapsed last_check) in
            let lines :=
              if due then [Print (CurrentState (clock w) task_id st)]
              else [] in
            let last_check' := if due then elapsed else last_check in
            let remaining := sub timeout elapsed in           (* line 120 *)
            if ltb (of_int 0) remaining then                  (* line 121 *)
              let d :=                          (* [min(10, remaining)] *)
                if ltb remaining (of_int 10) then remaining
                else of_int 10 in
              let w2 := {| clock := add (clock w) d;          (* line 122 *)
                           fetches := S (fetches w) |} in
              let '(res, w', log) :=
                wait_loop fuel' start last_check' w2 in
              (res, w', Fetch (OneId task_id) r :: lines ++ Sleep d :: log)
            else                                              (* line 124 *)
              (Ok (Broke elapsed), w1, Fetch (OneId task_id) r :: lines)
      end
  end.

(** [wait_for_task(task_id, timeout, log_progress)] *)
Definition wait_for_task (fuel : nat) (w : World)
  : Res unit * World * list Event :=
  let start := clock w in                                     (* line 102 *)
  match wait_loop fuel start (of_int 0) w with
  | (Ok Returned, w', log) => (Ok tt, w', log)
  | (Ok (Broke elapsed), w', log) =>
      (Ok tt, w', log ++ [Print (TimedOut task_id elapsed)])  (* line 125 *)
  | (Raise e, w', log) => (Raise e, w', log)
  | (OutOfFuel, w', log) => (OutOfFuel, w', log)
  end.

End Wait.

End Binary64.

(* ===================================================================== *)
(** * Console helpers                                                     *)
(* ===================================================================== *)

From Stdlib Require Import Ascii.

Module Console.

(** [s[:stop]] for a string and an integer: a negative [stop] counts from
    the end, and the bound is clipped to the string. *)
Definition slice_to (s : string) (stop : Z) : string :=
  let n := Z.of_nat (String.length s) in
  let stop' := if (stop <? 0)%Z then Z.max 0 (stop + n) else Z.min stop n in
  String.substring 0 (Z.to_nat stop') s.

(** [truncate(string, length)] *)
Definition truncate (s : string) (length : Z) : string :=
  if (Z.of_nat (String.length s) >? length)%Z
  then String.append (slice_to s length) ".."
  else s.

(** [c.lower()] on one character: the letters A-Z move to a-z. *)
Definition lower_char (c : ascii) : ascii :=
  let n := nat_of_ascii c in
  if Nat.leb 65 n && Nat.leb n 90 then ascii_of_nat (n + 32) else c.

(** [s.lower()] *)
Fixpoint lower (s : string) : string :=
  match s with
  | EmptyString => EmptyString
  | String c rest => String (lower_char c) (lower rest)
  end.

(** How [query_yes_no] ends: it returns a boolean, or [raw_input] raises
    [EOFError] because the input is exhausted. *)
Inductive Reply :=
| Returns (b : bool)
| EOFError.

Definition RETRY : string := "Please respond with 'y' or 'n'.".

(** Lines 86-93: the loop of [query_yes_no] over the lines still to be read
    from standard input.  The result comes with the lines left unread and
    the lines printed. *)
Fixpoint ask (stdin : list string) : Reply * list string * list string :=
  match stdin with
  | [] => (EOFError, [], [])
  | line :: rest =>
      let confirm := lower line in
      if String.eqb confirm "y" then (Returns true, rest, [])
      else if String.eqb confirm "n" then (Returns false, rest, [])
      else
        let '(r, unread, printed) := ask rest in
        (r, unread, RETRY :: printed)
  end.

(** [query_yes_no(msg)] reading the lines [stdin]. *)
Definition query_yes_no (msg : string) (stdin : list string)
  : Reply * list string * list string :=
  let '(r, unread, printed) := ask stdin in
  (r, unread, String.append msg " (y/n)" :: printed).

End Console.
(* ===================================================================== *)
(** * Auxiliary definitions used to state the properties                  *)
(* ===================================================================== *)

Module ConfigAux.
Import Config.

(** The names of the configuration parameters. *)
Definition param_names : list string := CONFIG_PARAMS.*1.

(** [config[key] = value] guarded by [value is not None]. *)
Definition put (key : string) (value : json) (config : gmap string json)
  : gmap string json :=
  if is_not_None value then <[key := value]> config else config.

(** The dict [save] dumps for [self]. *)
Definition saved_dict (self : CommandLineConfig) : gmap string json :=
  put "refresh_token" (refresh_token self)
    (put "private_key" (private_key self)
       (put "account" (account self)
          (put "url" (url self) ∅))).

(** The configuration read from the dict [d] found at [path]. *)
Definition loaded (path : string) (d : gmap string json)
  : CommandLineConfig :=
  {| config_file := path;
     url := default (JStr PRODUCTION_URL) (d !! "url");
     account := default JNull (d !! "account");
     private_key := default JNull (d !! "private_key");
     refresh_token := default JNull (d !! "refresh_token") |}.

(** A configuration file whose account is the empty string. *)
Definition empty_account_os : OS :=
  {| environ := ∅;
     files := {[ "cfg" := JsonFile (JDict {[ "account" := JStr "";
                                            "private_key" := JStr "key" ]}) ]};
     writable := fun _ => true |}.

End ConfigAux.

Module WaiterAux.
Import Waiter.
Local Open Scope Q_scope.

Definition Qnat (n : nat) : Q := inject_Z (Z.of_nat n).

(** The thread state right after a fetch. *)
Definition polled (w : World) : World :=
  {| clock := clock w; fetches := S (fetches w) |}.

(** ** The pieces of one pass through the loop of [wait_for_task] *)

(** Whether lines 116-119 print, given [log_progress]. *)
Definition progress_due (log_progress : bool) (elapsed last_check : Q)
  : bool :=
  log_progress && Qgeb (elapsed - last_check) 30.

Definition progress_lines (task_id : string) (log_progress : bool)
    (now : Q) (st : string) (elapsed last_check : Q) : list Event :=
  if progress_due log_progress elapsed last_check
  then [Print (CurrentState now task_id st)] else [].

Definition next_check (log_progress : bool) (elapsed last_check : Q) : Q :=
  if progress_due log_progress elapsed last_check
  then elapsed else last_check.

(** What lines 110-114 print for a terminal status. *)
Definition ending_lines (task_id : string) (s : Status) (elapsed : Q)
  : list Event :=
  Print (TaskEnded task_id (state s) elapsed) ::
  (if message_truthy (error_message s)
   then [Print (ErrorLine (default "" (error_message s)))] else []).

(** ** Reading the log of a wait *)

(** The elapsed time a report line states. *)
Definition reported_elapsed (ev : Event) : option Q :=
  match ev with
  | Print (TaskEnded _ _ e) | Print (TimedOut _ e) => Some e
  | _ => None
  end.

(** An elapsed time between zero and the timeout. *)
Definition within_timeout (timeout e : Q) : Prop :=
  0 <= e /\ e <= Qmax 0 timeout.

(** An event of the waiting phase: no completion, timeout or error line,
    and no terminal state fetched. *)
Definition waiting (ev : Event) : Prop :=
  match ev with
  | Print (TaskEnded _ _ _) | Print (TimedOut _ _) | Print (ErrorLine _) =>
      False
  | Fetch _ (inr (s :: _)) => finished (state s) = false
  | _ => True
  end.

(** An event a single-task wait can emit. *)
Definition single_task_event (ev : Event) : Prop :=
  is_bulk_fetch ev = false /\ is_summary ev = false /\ is_worker ev = false.


(** The progress rule, checked along a log.  The clock is at [now], the
    last progress log was made at elapsed time [last], and [due] tells
    whether the poll just made calls for a progress line ([Some st], for
    the state [st] it fetched) or not.  A poll that [counts] makes a line
    due exactly when progress logging is on and at least 30 seconds have
    elapsed since [last]; a line that is due is printed at once, carries
    the current time, the task and the state, and moves [last] to the
    current elapsed time; no progress line is printed when none is due. *)
Fixpoint progress_rule (counts : Status -> bool) (task_id : string)
    (log_progress : bool) (start now last : Q) (due : option string)
    (log : list Event) : Prop :=
  match log with
  | [] => due = None
  | Print (CurrentState t id st) :: rest =>
      due = Some st /\ t = now /\ id = task_id /\
      progress_rule counts task_id log_progress start now (now - start)
        None rest
  | Sleep d :: rest =>
      due = None /\
      progress_rule counts task_id log_progress start (now + d) last
        None rest
  | Fetch _ (inr (s :: _)) :: rest =>
      due = None /\
      progress_rule counts task_id log_progress start now last
        (if counts s && log_progress && Qgeb (now - start - last) 30
         then Some (state s) else None)
        rest
  | _ :: rest =>
      due = None /\
      progress_rule counts task_id log_progress start now last None rest
  end.

(** The polls the amended C4 speaks of: those that fetch a state that is
    not terminal.  The claim as stated counts every poll. *)
Definition nonterminal (s : Status) : bool := negb (finished (state s)).
Definition every_poll (s : Status) : bool := true.

(** The times stamped on the progress lines of a log. *)
Fixpoint progress_stamps (log : list Event) : list Q :=
  match log with
  | [] => []
  | Print (CurrentState t _ _) :: rest => t :: progress_stamps rest
  | _ :: rest => progress_stamps rest
  end.

(** Each stamp is at least 30 seconds after the previous one. *)
Fixpoint spaced (prev : Q) (stamps : list Q) : Prop :=
  match stamps with
  | [] => True
  | t :: rest => 30 <= t - prev /\ spaced t rest
  end.

(** ** Reading the result of a bulk fetch *)

(** Number of statuses in state [st]. *)
Definition count_state (st : string) (status_list : list Status) : Z :=
  Z.of_nat (length (filter (fun s => state s = st) status_list)).

(** Number of statuses in no terminal state. *)
Definition count_unfinished (status_list : list Status) : Z :=
  Z.of_nat (length (filter (fun s => finished (state s) = false)
                      status_list)).

(** The event a joined worker leaves in the caller's log. *)
Definition worker_event (t : Thread) : Event :=
  Worker (th_task t) (th_result t) (th_log t).

(** The threads [start_all] creates. *)
Fixpoint threads_of (remote : Remote) (timeout : Q) (log_progress : bool)
    (fuel : nat) (t0 : Q) (i : nat) (task_id_list : list string)
  : list Thread :=
  match task_id_list with
  | [] => []
  | task_id :: rest =>
      let '(r, w', log) :=
        wait_for_task (worker_thread remote i) task_id timeout log_progress
          fuel {| clock := t0; fetches := 0 |} in
      {| th_task := task_id; th_result := r; th_end := clock w';
         th_log := log |}
      :: threads_of remote timeout log_progress fuel t0 (S i) rest
  end.

(** The caller's clock once all of [threads] are joined. *)
Definition joined_clock (t0 : Q) (threads : list Thread) : Q :=
  foldl (fun t th => Qmax t (th_end th)) t0 threads.

(** ** The fetches of a log *)


(** ** Whole seconds *)

(** [q] is a whole number. *)
Definition whole (q : Q) : bool := (Qnum q mod Z.pos (Qden q) =? 0)%Z.

(** [q] has magnitude at most [2^k]. *)
Definition within_pow2 (k : Z) (q : Q) : bool :=
  Qle_bool (- inject_Z (2 ^ k)) q && Qle_bool q (inject_Z (2 ^ k)).

(** The clock and the timeout are whole seconds of magnitude at most
    2^51.  Every number the loop of [wait_for_task] then computes is a
    whole number of magnitude at most 2^52, which binary64 holds
    exactly. *)
Definition whole_seconds (now timeout : Q) : Prop :=
  whole now && within_pow2 51 now
  && whole timeout && within_pow2 51 timeout = true.

(** ** Example services *)

Definition RUNNING : Status :=
  {| state := "RUNNING"; error_message := None |}.
Definition DONE : Status :=
  {| state := "COMPLETED"; error_message := None |}.

(** A task that never leaves the state RUNNING. *)
Definition always_running : Service := fun _ _ _ => inr [RUNNING].

(** A task found RUNNING three times and COMPLETED from then on. *)
Definition done_at_fourth_poll : Service := fun n _ _ =>
  if Nat.ltb n 3 then inr [RUNNING] else inr [DONE].


(** Workers see tasks that keep running; the bulk fetch reports one
    status per identifier, all RUNNING. *)
Definition stuck_remote : Remote :=
  {| main_thread := fun _ _ a =>
       match a with
       | IdList ids => inr (map (fun _ => RUNNING) ids)
       | OneId _ => inr [RUNNING]
       end;
     worker_thread := fun _ => always_running |}.

Definition world0 : World := {| clock := 0; fetches := 0 |}.

End WaiterAux.

Module ConsoleAux.
Import Console.

(** The answers [query_yes_no] accepts. *)
Definition says_yes (line : string) : Prop := line = "y" \/ line = "Y".
Definition says_no (line : string) : Prop := line = "n" \/ line = "N".
Definition answer (line : string) : Prop := says_yes line \/ says_no line.

End ConsoleAux.

Module WaiterAux2.
Import Waiter WaiterAux.
Local Open Scope Q_scope.

(** Number of status fetches and of sleeps in a log. *)
Definition polls (log : list Event) : nat := length (filter is_fetch log).

(** A log with its progress lines removed. *)
Fixpoint without_progress (log : list Event) : list Event :=
  match log with
  | [] => []
  | Print (CurrentState _ _ _) :: rest => without_progress rest
  | ev :: rest => ev :: without_progress rest
  end.

(** The events of the loop of [wait_for_task] for one task: fetches of
    that task, sleeps, and progress, completion and error lines. *)
Definition loop_event (task_id : string) (ev : Event) : Prop :=
  match ev with
  | Fetch (OneId i) _ => i = task_id
  | Sleep _ => True
  | Print (CurrentState _ i _) => i = task_id
  | Print (TaskEnded i _ _) => i = task_id
  | Print (ErrorLine _) => True
  | _ => False
  end.

(** A task found COMPLETED from 25 seconds after time zero. *)
Definition done_after_25 : Service := fun _ t _ =>
  if Qle_bool 25 t then inr [DONE] else inr [RUNNING].

(** A service that fails at the third fetch. *)
Definition fails_at_third_fetch : Service := fun n _ _ =>
  if Nat.ltb n 2 then inr [RUNNING] else inl (EEException "unavailable").

End WaiterAux2.

Module Binary64Aux.
Import Waiter WaiterAux.
Local Open Scope Q_scope.

(** ** Example inputs *)

(** A task that never leaves the state RUNNING. *)
Definition keeps_running : Binary64.Service := fun _ _ _ => inr [RUNNING].

(** The floats written [0.1] and [0.7]. *)
Definition tenth : Binary64.float :=
  Binary64.div (Binary64.of_int 1) (Binary64.of_int 10).
Definition seven_tenths : Binary64.float :=
  Binary64.div (Binary64.of_int 7) (Binary64.of_int 10).

(** ** Comparing a run on rationals with a run on floats *)

(** The float of a whole number of seconds. *)
Definition float_of (q : Q) : Binary64.float := Binary64.of_int (Qfloor q).

(** The two services answer alike at whole seconds of magnitude at most
    2^52. *)
Definition same_service (svc : Service) (svc64 : Binary64.Service) : Prop :=
  forall k q a,
    whole q = true -> within_pow2 52 q = true ->
    svc k q a = svc64 k (float_of q) a.

(** The same event: same fetch and answer, same line, and every number
    in it a whole number on one side and its float on the other. *)
Definition same_event (ev : Event) (ev64 : Binary64.Event) : Prop :=
  match ev, ev64 with
  | Fetch a r, Binary64.Fetch a' r' => a = a' /\ r = r'
  | Sleep d, Binary64.Sleep d' => whole d = true /\ d' = float_of d
  | Print (TaskEnded i st e), Binary64.Print (Binary64.TaskEnded i' st' e') =>
      i = i' /\ st = st' /\ whole e = true /\ e' = float_of e
  | Print (ErrorLine m), Binary64.Print (Binary64.ErrorLine m') => m = m'
  | Print (CurrentState t i st),
    Binary64.Print (Binary64.CurrentState t' i' st') =>
      whole t = true /\ t' = float_of t /\ i = i' /\ st = st'
  | Print (TimedOut i e), Binary64.Print (Binary64.TimedOut i' e') =>
      i = i' /\ whole e = true /\ e' = float_of e
  | _, _ => False
  end.

(** The same way of leaving the loop. *)
Definition same_exit (r : Res Exit) (r64 : Res Binary64.Exit) : Prop :=
  match r, r64 with
  | Ok Returned, Ok Binary64.Returned => True
  | Ok (Broke e), Ok (Binary64.Broke e') => whole e = true /\ e' = float_of e
  | Raise x, Raise x' => x = x'
  | OutOfFuel, OutOfFuel => True
  | _, _ => False
  end.

(** The same thread state. *)
Definition same_world (w : World) (w64 : Binary64.World) : Prop :=
  whole (clock w) = true /\
  Binary64.clock w64 = float_of (clock w) /\
  Binary64.fetches w64 = fetches w.

(** The thread state on floats that stands for [w]. *)
Definition world64 (w : World) : Binary64.World :=
  {| Binary64.clock := float_of (clock w); Binary64.fetches := fetches w |}.

(** The wait computed in binary64, as the source computes it, is the wait
    computed exactly: same result, same final state, same events. *)
Definition computed_alike (svc : Service) (svc64 : Binary64.Service)
    (task_id : string) (timeout : Q) (log_progress : bool) (fuel : nat)
    (w : World) : Prop :=
  let r := wait_for_task svc task_id timeout log_progress fuel w in
  let r64 := Binary64.wait_for_task svc64 task_id (float_of timeout)
               log_progress fuel (world64 w) in
  r64.1.1 = r.1.1 /\ same_world r.1.2 r64.1.2 /\
  Forall2 same_event r.2 r64.2.


Definition after_25_done : Binary64.Service := fun _ t _ =>
  if Binary64.leb (Binary64.of_int 25) t then inr [DONE] else inr [RUNNING].

End Binary64Aux.
(* ===================================================================== *)
(** * Properties of the configuration store                               *)
(* ===================================================================== *)

Module ConfigFacts.
Import Config ConfigAux.

Lemma is_not_None_true v : is_not_None v = true <-> v ≠ JNull.
Proof. destruct v; simpl; split; congruence. Qed.

Lemma init_dict HOMEDIR arg os d :
  files os !! resolve_config_file HOMEDIR arg os = Some (JsonFile (JDict d)) ->
  init HOMEDIR arg os = Ok (loaded (resolve_config_file HOMEDIR arg os) d).
Proof.
  intros Hf. unfold init, read_config. rewrite Hf. reflexivity.
Qed.

Lemma init_missing HOMEDIR arg os :
  files os !! resolve_config_file HOMEDIR arg os = None ->
  init HOMEDIR arg os = Ok (loaded (resolve_config_file HOMEDIR arg os) ∅).
Proof.
  intros Hf. unfold init, read_config. rewrite Hf. reflexivity.
Qed.

Lemma collect_params_all self :
  collect_params self param_names ∅ = Ok (saved_dict self).
Proof. reflexivity. Qed.

Lemma getattr_Ok self k v :
  getattr self k = Ok v ->
  (k = "url" /\ v = url self) \/ (k = "account" /\ v = account self) \/
  (k = "private_key" /\ v = private_key self) \/
  (k = "refresh_token" /\ v = refresh_token self).
Proof.
  unfold getattr.
  destruct (String.eqb_spec k "url") as [->|_]; [naive_solver|].
  destruct (String.eqb_spec k "account") as [->|_]; [naive_solver|].
  destruct (String.eqb_spec k "private_key") as [->|_]; [naive_solver|].
  destruct (String.eqb_spec k "refresh_token") as [->|_]; [naive_solver|].
  discriminate.
Qed.

Lemma lookup_put k key value config :
  put key value config !! k =
    if decide (key = k) then
      (if is_not_None value then Some value else config !! k)
    else config !! k.
Proof.
  unfold put. destruct (is_not_None value); case_decide; subst;
    simplify_map_eq; reflexivity.
Qed.

(** [save] dumps exactly the attributes that are not [None]. *)
Lemma lookup_saved_dict self k v :
  saved_dict self !! k = Some v <-> getattr self k = Ok v /\ v ≠ JNull.
Proof.
  unfold saved_dict. rewrite !lookup_put, lookup_empty. split.
  - repeat case_decide; subst; try discriminate;
      repeat match goal with
             | |- context [is_not_None ?x] =>
                 destruct (is_not_None x) eqn:?
             end; intros [= <-]; split; try reflexivity;
      by apply is_not_None_true.
  - intros [Hg Hv]. apply is_not_None_true in Hv.
    destruct (getattr_Ok _ _ _ Hg) as [[-> ->]|[[-> ->]|[[-> ->]|[-> ->]]]];
      repeat (case_decide; try discriminate); rewrite ?Hv; try reflexivity;
      congruence.
Qed.

Lemma save_writable self os :
  writable os (config_file self) = true ->
  save self os =
    Ok {| environ := environ os;
          files := <[config_file self := JsonFile (JDict (saved_dict self))]>
                     (files os);
          writable := writable os |}.
Proof. intros Hw. unfold save. simpl. rewrite Hw. reflexivity. Qed.

Lemma getattr_loaded path d k dflt :
  (k, dflt) ∈ CONFIG_PARAMS ->
  getattr (loaded path d) k = Ok (default dflt (d !! k)).
Proof.
  unfold CONFIG_PARAMS. rewrite !elem_of_cons, elem_of_nil.
  intros [[= -> ->]|[[= -> ->]|[[= -> ->]|[[= -> ->]|[]]]]]; reflexivity.
Qed.

End ConfigFacts.

Module ConfigSpec.
Import Config ConfigAux ConfigFacts.

(** ** C7: where the configuration is read from *)

(** C7. The configuration file is the explicit path argument when one is
    given (a non-empty string); otherwise the path held by the
    environment variable [EE_CONFIG_FILE] when it is set; otherwise the
    default path [~/.config/earthengine/credentials].  When no file exists
    at the resolved path, loading raises nothing and every parameter takes
    its built-in default: the production endpoint for [url], [None] for
    [account], [private_key] and [refresh_token]. *)
Theorem config_resolution_order (HOMEDIR : string) (arg : option string)
    (os : OS) :
  let path := resolve_config_file HOMEDIR arg os in
  (forall p, arg = Some p -> p ≠ "" -> path = p) /\
  (arg = None \/ arg = Some "" ->
     forall e, environ os !! "EE_CONFIG_FILE" = Some e -> path = e) /\
  (arg = None \/ arg = Some "" ->
     environ os !! "EE_CONFIG_FILE" = None ->
     path = path_join HOMEDIR ".config/earthengine/credentials") /\
  (files os !! path = None ->
     init HOMEDIR arg os =
       Ok {| config_file := path;
             url := JStr "https://earthengine.googleapis.com";
             account := JNull; private_key := JNull;
             refresh_token := JNull |}).
Proof.
  intros path. subst path. repeat split.
  - intros p -> Hp. simpl.
    destruct (String.eqb_spec p ""); [contradiction | reflexivity].
  - intros [-> | ->] e He; simpl; unfold EE_CONFIG_FILE;
      rewrite He; reflexivity.
  - intros [-> | ->] He; simpl; unfold EE_CONFIG_FILE;
      rewrite He; reflexivity.
  - intros Hf. rewrite (init_missing _ _ _ Hf). reflexivity.
Qed.

(** An environment naming a file that does not exist: the named path wins
    over the default one and the defaults are loaded. *)
Lemma config_resolution_order_witness :
  let os := {| environ := {[ "EE_CONFIG_FILE" := "/tmp/cfg" ]};
               files := ∅; writable := fun _ => true |} in
  resolve_config_file "/home/u" None os = "/tmp/cfg" /\
  init "/home/u" None os =
    Ok {| config_file := "/tmp/cfg";
          url := JStr "https://earthengine.googleapis.com";
          account := JNull; private_key := JNull; refresh_token := JNull |}.
Proof.
  intros os.
  destruct (config_resolution_order "/home/u" None os) as (_ & He & _ & Hd).
  split.
  - apply He; [left; reflexivity | reflexivity].
  - apply Hd. reflexivity.
Defined.

(** ** C8: the credentials [ee_init] chooses *)

(** C8, as stated, fails: loaded from a file that sets [account] to the
    empty string and [private_key] to a key, both parameters are non-null,
    yet [ee_init] does not use service-account credentials; it falls
    through to the persistent credentials. *)
Lemma credential_strategy_nonnull_counterexample :
  exists c,
    init "/home/u" (Some "cfg") empty_account_os = Ok c /\
    account c ≠ JNull /\ private_key c ≠ JNull /\
    ee_init "id" "secret" c = Initialize Persistent (url c) /\
    ee_init "id" "secret" c ≠
      Initialize (ServiceAccountCredentials (account c) (private_key c))
        (url c).
Proof.
  eexists. split; [reflexivity|]. simpl. repeat split; discriminate.
Qed.

(** C8 (amended). [ee_init] chooses the credentials by the truth value of
    the parameters: service-account credentials when [account] and
    [private_key] are both true values (for strings: non-null and
    non-empty); otherwise token-refresh credentials, with the fixed token
    endpoint and the client id and secret of [ee.oauth], when
    [refresh_token] is a true value; otherwise the persistent credentials.
    Every configuration falls in exactly one of the three cases, and the
    session is initialised with the configured [url]. *)
Theorem credential_strategy_priority (CLIENT_ID CLIENT_SECRET : string)
    (c : CommandLineConfig) :
  let both := truthy (account c) && truthy (private_key c) in
  (both = true ->
     ee_init CLIENT_ID CLIENT_SECRET c =
       Initialize (ServiceAccountCredentials (account c) (private_key c))
         (url c)) /\
  (both = false -> truthy (refresh_token c) = true ->
     ee_init CLIENT_ID CLIENT_SECRET c =
       Initialize
         (OAuth2Credentials JNull CLIENT_ID CLIENT_SECRET (refresh_token c)
            JNull "https://accounts.google.com/o/oauth2/token" JNull)
         (url c)) /\
  (both = false -> truthy (refresh_token c) = false ->
     ee_init CLIENT_ID CLIENT_SECRET c = Initialize Persistent (url c)) /\
  truthy JNull = false /\
  (forall s, truthy (JStr s) = true <-> s ≠ "").
Proof.
  intros both. subst both. unfold ee_init, credentials_of.
  repeat split.
  - intros ->. reflexivity.
  - intros -> ->. reflexivity.
  - intros -> ->. reflexivity.
  - simpl. destruct (String.eqb_spec s ""); [discriminate | trivial].
  - simpl. destruct (String.eqb_spec s ""); [contradiction | reflexivity].
Qed.

(** A configuration holding only a refresh token. *)
Lemma credential_strategy_priority_witness :
  let c := {| config_file := "cfg"; url := JStr "https://e.example";
              account := JNull; private_key := JNull;
              refresh_token := JStr "tok" |} in
  ee_init "id" "secret" c =
    Initialize
      (OAuth2Credentials JNull "id" "secret" (JStr "tok") JNull
         "https://accounts.google.com/o/oauth2/token" JNull)
      (JStr "https://e.example").
Proof.
  intros c.
  destruct (credential_strategy_priority "id" "secret" c) as (_ & H & _).
  apply H; reflexivity.
Defined.

(** ** C9: saving and loading *)

Lemma lookup_saved_loaded path (d : gmap string json) k :
  (forall k, k ∈ param_names -> exists v, d !! k = Some v /\ v ≠ JNull) ->
  saved_dict (loaded path d) !! k =
    if decide (k ∈ param_names) then d !! k else None.
Proof.
  intros Hset. apply option_eq; intros v. rewrite lookup_saved_dict.
  case_decide as Hk.
  - destruct (Hset k Hk) as (x & Hx & Hxn).
    apply list_elem_of_fmap in Hk as [[k' dflt] [-> Hin]]. simpl in *.
    rewrite (getattr_loaded _ _ _ _ Hin), Hx. simpl. split.
    + intros [[= <-] _]. reflexivity.
    + intros [= <-]. split; [reflexivity | exact Hxn].
  - split; [|discriminate]. intros [Hg _]. exfalso. apply Hk.
    unfold param_names; simpl. rewrite !elem_of_cons.
    destruct (getattr_Ok _ _ _ Hg) as [[-> _]|[[-> _]|[[-> _]|[-> _]]]];
      tauto.
Qed.

(** C9, as stated, fails for a configuration file in which all four
    parameters are set and that holds one more key: loading reads the four
    parameters only, so saving what was loaded writes a dict without that
    key, which is not the content of the file. *)
Lemma save_load_extra_key_counterexample :
  let d : gmap string json :=
    {[ "url" := JStr "u"; "account" := JStr "a";
       "private_key" := JStr "k"; "refresh_token" := JStr "t";
       "zone" := JInt 3 ]} in
  let os := {| environ := ∅; files := {[ "cfg" := JsonFile (JDict d) ]};
               writable := fun _ => true |} in
  (forall k, k ∈ ["url"; "account"; "private_key"; "refresh_token"] ->
             exists v, d !! k = Some v /\ v ≠ JNull) /\
  exists c os' d',
    init "/home/u" (Some "cfg") os = Ok c /\
    save c os = Ok os' /\
    files os' !! "cfg" = Some (JsonFile (JDict d')) /\
    d !! "zone" = Some (JInt 3) /\
    d' !! "zone" = None /\
    d' ≠ d.
Proof.
  intros d os.
  assert (Hset : forall k, k ∈ param_names ->
                   exists v, d !! k = Some v /\ v ≠ JNull).
  { intros k. unfold param_names. simpl.
    rewrite !elem_of_cons, elem_of_nil. subst d.
    intros [->|[->|[->|[->|[]]]]]; eexists; split;
      solve [reflexivity | discriminate]. }
  split; [exact Hset|].
  assert (Hzone : saved_dict (loaded "cfg" d) !! "zone" = None).
  { rewrite (lookup_saved_loaded "cfg" d "zone" Hset).
    apply decide_False. unfold param_names. simpl.
    rewrite !elem_of_cons, elem_of_nil.
    intros [H|[H|[H|[H|[]]]]]; discriminate H. }
  exists (loaded "cfg" d). eexists.
  exists (saved_dict (loaded "cfg" d)).
  split; [apply (init_dict "/home/u" (Some "cfg") os d); reflexivity|].
  split; [apply save_writable; reflexivity|]. simpl.
  split; [apply lookup_insert_eq|]. split; [reflexivity|].
  split; [exact Hzone|].
  intros Heq. rewrite Heq in Hzone. discriminate Hzone.
Qed.

(** C9 (amended). On a writable path, [save] replaces the content of the
    configuration file by a dict that holds exactly the parameters of the
    configuration that are not [None], each with its value.  Loading that
    file again yields a configuration in which every parameter that was not
    [None] has the value it had.  And for a configuration file in which all
    four parameters are set (present and not null), saving the configuration
    loaded from it writes a dict that agrees with the file on the four
    parameters and has no other key; when the file has no other key either,
    the dict written is the dict read (dicts are compared as maps, so key
    order plays no part). *)
Theorem save_load_roundtrip (HOMEDIR : string) :
  (forall (c : CommandLineConfig) (os : OS),
      writable os (config_file c) = true ->
      exists d os',
        save c os = Ok os' /\
        files os' = <[config_file c := JsonFile (JDict d)]> (files os) /\
        (forall k v, d !! k = Some v <-> getattr c k = Ok v /\ v ≠ JNull) /\
        (forall arg,
            resolve_config_file HOMEDIR arg os' = config_file c ->
            exists c',
              init HOMEDIR arg os' = Ok c' /\
              config_file c' = config_file c /\
              forall k v, getattr c k = Ok v -> v ≠ JNull ->
                          getattr c' k = Ok v)) /\
  (forall (arg : option string) (os : OS) (d : gmap string json),
      let path := resolve_config_file HOMEDIR arg os in
      let params := ["url"; "account"; "private_key"; "refresh_token"] in
      files os !! path = Some (JsonFile (JDict d)) ->
      (forall k, k ∈ params -> exists v, d !! k = Some v /\ v ≠ JNull) ->
      writable os path = true ->
      exists c os' d',
        init HOMEDIR arg os = Ok c /\
        save c os = Ok os' /\
        files os' = <[path := JsonFile (JDict d')]> (files os) /\
        (forall k, k ∈ params -> d' !! k = d !! k) /\
        (forall k, k ∉ params -> d' !! k = None) /\
        ((forall k, is_Some (d !! k) -> k ∈ params) ->
         d' = d /\ files os' = files os)).
Proof.
  split.
  - intros c os Hw. eexists _, _.
    split; [apply (save_writable _ _ Hw)|]. simpl.
    split; [reflexivity|]. split; [apply lookup_saved_dict|].
    intros arg Hpath.
    pose proof (init_dict HOMEDIR arg
      {| environ := environ os;
         files := <[config_file c := JsonFile (JDict (saved_dict c))]>
                    (files os);
         writable := writable os |} (saved_dict c)) as Hinit.
    rewrite Hpath in Hinit. simpl in Hinit.
    rewrite lookup_insert_eq in Hinit. specialize (Hinit eq_refl).
    eexists. split; [exact Hinit|]. split; [reflexivity|].
    intros k v Hg Hv.
    assert (Hs : saved_dict c !! k = Some v) by (by apply lookup_saved_dict).
    revert Hs. generalize (saved_dict c). intros sd Hs.
    destruct (getattr_Ok _ _ _ Hg) as [[-> _]|[[-> _]|[[-> _]|[-> _]]]];
      unfold getattr, loaded; simpl; rewrite Hs; reflexivity.
  - intros arg os d path params Hf Hset Hw. subst path.
    exists (loaded (resolve_config_file HOMEDIR arg os) d). eexists.
    exists (saved_dict (loaded (resolve_config_file HOMEDIR arg os) d)).
    split; [apply (init_dict _ _ _ _ Hf)|].
    split; [apply save_writable; exact Hw|]. simpl.
    split; [reflexivity|].
    assert (Hlook := fun k => lookup_saved_loaded
                       (resolve_config_file HOMEDIR arg os) d k Hset).
    split; [|split].
    + intros k Hk. rewrite Hlook. rewrite decide_True by exact Hk.
      reflexivity.
    + intros k Hk. rewrite Hlook. rewrite decide_False by exact Hk.
      reflexivity.
    + intros Hdom.
      assert (Heq : saved_dict (loaded (resolve_config_file HOMEDIR arg os) d)
                    = d).
      { apply map_eq; intros k. rewrite Hlook. case_decide as Hk;
          [reflexivity|].
        destruct (d !! k) as [v|] eqn:Hd; [|reflexivity].
        exfalso. apply Hk, Hdom. rewrite Hd. eauto. }
      split; [exact Heq|]. rewrite Heq. apply insert_id. exact Hf.
Qed.

(** A configuration with a null account, saved to an empty file system and
    loaded again, and a complete file loaded and saved. *)
Lemma save_load_roundtrip_witness :
  let c := {| config_file := "cfg"; url := JStr "https://e.example";
              account := JNull; private_key := JStr "key";
              refresh_token := JStr "tok" |} in
  let os := {| environ := ∅; files := ∅; writable := fun _ => true |} in
  let d : gmap string json :=
    {[ "url" := JStr "u"; "account" := JStr "a";
       "private_key" := JStr "k"; "refresh_token" := JStr "t" ]} in
  let os2 := {| environ := ∅; files := {[ "cfg" := JsonFile (JDict d) ]};
                writable := fun _ => true |} in
  (exists d' os' c', save c os = Ok os' /\
      files os' = <["cfg" := JsonFile (JDict d')]> ∅ /\
      d' !! "account" = None /\ d' !! "private_key" = Some (JStr "key") /\
      init "/home/u" (Some "cfg") os' = Ok c' /\
      getattr c' "private_key" = Ok (JStr "key")) /\
  (exists c' os', init "/home/u" (Some "cfg") os2 = Ok c' /\
      save c' os2 = Ok os' /\ files os' = files os2).
Proof.
  intros c os d os2.
  destruct (save_load_roundtrip "/home/u") as [Hsave Hload]. split.
  - destruct (Hsave c os eq_refl) as (d' & os' & Hs & Hf & Hd & Hback).
    destruct (Hback (Some "cfg") eq_refl) as (c' & Hi & _ & Hsame).
    exists d', os', c'. split; [exact Hs|]. split; [exact Hf|].
    split; [|split; [|split; [exact Hi|]]].
    + destruct (d' !! "account") as [v|] eqn:Hv; [|reflexivity].
      apply Hd in Hv as [[= <-] Hnn]. contradiction.
    + apply Hd. split; [reflexivity | discriminate].
    + apply Hsame; [reflexivity | discriminate].
  - destruct (Hload (Some "cfg") os2 d)
      as (c' & os' & d' & Hi & Hs & _ & _ & _ & Hsame).
    + reflexivity.
    + intros k. rewrite !elem_of_cons, elem_of_nil. subst d.
      intros [->|[->|[->|[->|[]]]]]; eexists; split;
        solve [reflexivity | discriminate].
    + reflexivity.
    + exists c', os'. split; [exact Hi|]. split; [exact Hs|].
      apply Hsame. intros k [v Hv]. rewrite !elem_of_cons. subst d.
      destruct (decide (k = "url")) as [->|]; [tauto|].
      destruct (decide (k = "account")) as [->|]; [tauto|].
      destruct (decide (k = "private_key")) as [->|]; [tauto|].
      destruct (decide (k = "refresh_token")) as [->|]; [tauto|].
      simplify_map_eq.
Defined.

(** ** C10: keys that are not parameters *)

(** C10. Loading reads the four parameters and nothing else: two
    configuration files that agree on [url], [account], [private_key] and
    [refresh_token] load to the same configuration, whatever other keys
    either holds; and whenever that configuration is saved, the dict
    written has no key besides the four parameters. *)
Theorem unknown_keys_ignored (HOMEDIR : string) (arg : option string)
    (os os2 : OS) (d d2 : gmap string json) :
  environ os = environ os2 ->
  files os !! resolve_config_file HOMEDIR arg os =
    Some (JsonFile (JDict d)) ->
  files os2 !! resolve_config_file HOMEDIR arg os2 =
    Some (JsonFile (JDict d2)) ->
  (forall k, k ∈ ["url"; "account"; "private_key"; "refresh_token"] ->
             d !! k = d2 !! k) ->
  exists c,
    init HOMEDIR arg os = Ok c /\
    init HOMEDIR arg os2 = Ok c /\
    forall osA osB,
      save c osA = Ok osB ->
      exists dS,
        files osB !! config_file c = Some (JsonFile (JDict dS)) /\
        forall k, is_Some (dS !! k) ->
                  k ∈ ["url"; "account"; "private_key"; "refresh_token"].
Proof.
  intros Henv Hf Hf2 Hagree.
  assert (Hpath : resolve_config_file HOMEDIR arg os2 =
                  resolve_config_file HOMEDIR arg os).
  { unfold resolve_config_file. rewrite Henv. reflexivity. }
  exists (loaded (resolve_config_file HOMEDIR arg os) d).
  split; [apply (init_dict _ _ _ _ Hf)|]. split.
  - rewrite (init_dict _ _ _ _ Hf2), Hpath. unfold loaded.
    rewrite <- !Hagree by set_solver. reflexivity.
  - intros osA osB Hs. unfold save in Hs.
    change (CONFIG_PARAMS.*1) with param_names in Hs.
    rewrite collect_params_all in Hs. simpl in Hs.
    destruct (writable osA _); [|discriminate].
    injection Hs as <-. simpl. eexists.
    split; [apply lookup_insert_eq|].
    intros k [v Hv]. apply lookup_saved_dict in Hv as [Hg _].
    destruct (getattr_Ok _ _ _ Hg) as [[-> _]|[[-> _]|[[-> _]|[-> _]]]];
      set_solver.
Qed.

(** A file with a key [zone] that is no parameter loads like the same file
    without it, and the key is not written back. *)
Lemma unknown_keys_ignored_witness :
  let d : gmap string json := {[ "url" := JStr "u"; "zone" := JInt 3 ]} in
  let d2 : gmap string json := {[ "url" := JStr "u" ]} in
  let os := {| environ := ∅; files := {[ "cfg" := JsonFile (JDict d) ]};
               writable := fun _ => true |} in
  let os2 := {| environ := ∅; files := {[ "cfg" := JsonFile (JDict d2) ]};
                writable := fun _ => true |} in
  exists c,
    init "/home/u" (Some "cfg") os = Ok c /\
    init "/home/u" (Some "cfg") os2 = Ok c /\
    forall osA osB,
      save c osA = Ok osB ->
      exists dS,
        files osB !! config_file c = Some (JsonFile (JDict dS)) /\
        forall k, is_Some (dS !! k) ->
                  k ∈ ["url"; "account"; "private_key"; "refresh_token"].
Proof.
  intros d d2 os os2.
  apply (unknown_keys_ignored "/home/u" (Some "cfg") os os2 d d2).
  - reflexivity.
  - reflexivity.
  - reflexivity.
  - intros k. rewrite !elem_of_cons, elem_of_nil.
    intros [->|[->|[->|[->|[]]]]]; reflexivity.
Defined.

End ConfigSpec.

(* ===================================================================== *)
(** * Properties of the waiters                                           *)
(* ===================================================================== *)

Module WaiterFacts.
Import Waiter WaiterAux.
Local Open Scope Q_scope.

(** ** Comparisons and rounding *)

Lemma Qgtb_true x y : Qgtb x y = true <-> y < x.
Proof.
  unfold Qgtb. rewrite negb_true_iff, <- not_true_iff_false, Qle_bool_iff.
  split; [apply Qnot_le_lt | apply Qlt_not_le].
Qed.

Lemma Qgtb_false x y : Qgtb x y = false <-> x <= y.
Proof. unfold Qgtb. rewrite negb_false_iff. apply Qle_bool_iff. Qed.

Lemma Qgeb_true x y : Qgeb x y = true <-> y <= x.
Proof. apply Qle_bool_iff. Qed.

Lemma Qnat_nonneg n : 0 <= Qnat n.
Proof.
  unfold Qnat. change 0 with (inject_Z 0). rewrite <- Zle_Qle. lia.
Qed.

Lemma Qnat_S n : Qnat (S n) == Qnat n + 1.
Proof.
  unfold Qnat. rewrite Nat2Z.inj_succ, <- Z.add_1_r, inject_Z_plus.
  reflexivity.
Qed.

Lemma Qnat_le (n m : nat) : (n <= m)%nat -> Qnat n <= Qnat m.
Proof. intros H. unfold Qnat. rewrite <- Zle_Qle. lia. Qed.

Lemma polls_bound_enough timeout :
  timeout <= 10 * Qnat (Z.to_nat (Qceiling (timeout / 10))).
Proof.
  assert (H1 : timeout / 10 <= inject_Z (Qceiling (timeout / 10)))
    by apply Qle_ceiling.
  assert (H2 : inject_Z (Qceiling (timeout / 10)) <=
               Qnat (Z.to_nat (Qceiling (timeout / 10)))).
  { unfold Qnat. rewrite <- Zle_Qle. lia. }
  assert (H3 : 10 * (timeout / 10) == timeout)
    by (apply Qmult_div_r; discriminate).
  lra.
Qed.

Lemma Qmin_10_cases r :
  (r < 10 /\ Qmin 10 r == r) \/ (10 <= r /\ Qmin 10 r == 10).
Proof.
  destruct (Q.min_spec 10 r) as [[H1 H2]|[H1 H2]].
  - right. split; [lra | exact H2].
  - destruct (Qlt_le_dec r 10) as [Hlt|Hle].
    + left. split; assumption.
    + right. split; [exact Hle|]. rewrite H2. lra.
Qed.

(** ** Whole numbers *)

Lemma whole_spec q : whole q = true <-> exists z : Z, q == inject_Z z.
Proof.
  unfold whole. rewrite Z.eqb_eq. split.
  - intros H. exists (Qnum q / Z.pos (Qden q))%Z.
    unfold Qeq. simpl.
    pose proof (Z.div_mod (Qnum q) (Z.pos (Qden q))) as Hd.
    rewrite H in Hd. lia.
  - intros [z Hz]. unfold Qeq in Hz. simpl in Hz.
    replace (Qnum q) with (z * Z.pos (Qden q))%Z by lia.
    apply Z_mod_mult.
Qed.

Lemma whole_minus x y :
  whole x = true -> whole y = true -> whole (x - y) = true.
Proof.
  rewrite !whole_spec. intros [a Ha] [b Hb]. exists (a - b)%Z.
  rewrite Ha, Hb. unfold Z.sub, Qminus.
  rewrite inject_Z_plus, inject_Z_opp. reflexivity.
Qed.

Lemma whole_plus x y :
  whole x = true -> whole y = true -> whole (x + y) = true.
Proof.
  rewrite !whole_spec. intros [a Ha] [b Hb]. exists (a + b)%Z.
  rewrite Ha, Hb, inject_Z_plus. reflexivity.
Qed.

Lemma whole_min_10 r : whole r = true -> whole (Qmin 10 r) = true.
Proof.
  rewrite !whole_spec. intros [a Ha].
  destruct (Qmin_10_cases r) as [[_ H]|[_ H]].
  - exists a. rewrite H. exact Ha.
  - exists 10%Z. rewrite H. reflexivity.
Qed.

Lemma within_pow2_spec k q :
  within_pow2 k q = true <->
  - inject_Z (2 ^ k) <= q /\ q <= inject_Z (2 ^ k).
Proof.
  unfold within_pow2. rewrite andb_true_iff, !Qle_bool_iff. reflexivity.
Qed.

Lemma whole_seconds_spec now timeout :
  whole_seconds now timeout <->
  (whole now = true /\ within_pow2 51 now = true) /\
  (whole timeout = true /\ within_pow2 51 timeout = true).
Proof.
  unfold whole_seconds. rewrite !andb_true_iff. tauto.
Qed.

Section Single.
Variable svc : Service.
Variables (task_id : string) (timeout : Q) (log_progress : bool).

Local Abbreviation wait_body := (wait_body svc task_id timeout log_progress).
Local Abbreviation wait_loop := (wait_loop svc task_id timeout log_progress).
Local Abbreviation wait_for_task :=
  (wait_for_task svc task_id timeout log_progress).

(** One pass of the loop followed by the rest of the loop, spelled out
    on the answer of the service. *)
Lemma wait_loop_unfold n start last_check w :
  wait_loop (S n) start last_check w =
    let elapsed := clock w - start in
    let r := svc (fetches w) (clock w) (OneId task_id) in
    match r with
    | inl e => (Raise e, polled w, [Fetch (OneId task_id) r])
    | inr [] => (Raise IndexError, polled w, [Fetch (OneId task_id) r])
    | inr (s :: _) =>
        if finished (state s) then
          (Ok Returned, polled w,
           Fetch (OneId task_id) r :: ending_lines task_id s elapsed)
        else if Qgtb (timeout - elapsed) 0 then
          let d := Qmin 10 (timeout - elapsed) in
          let '(res, w', log) :=
            wait_loop n start (next_check log_progress elapsed last_check)
              {| clock := clock w + d; fetches := S (fetches w) |} in
          (res, w',
           Fetch (OneId task_id) r ::
           progress_lines task_id log_progress (clock w) (state s) elapsed
             last_check ++
           Sleep d :: log)
        else
          (Ok (Broke elapsed), polled w,
           Fetch (OneId task_id) r ::
           progress_lines task_id log_progress (clock w) (state s) elapsed
             last_check)
    end.
Proof.
  cbn [Waiter.wait_loop]. unfold Waiter.wait_body, bind, time_time,
    getTaskStatus, report_progress, progress_lines, next_check,
    progress_due, ending_lines, polled.
  cbv zeta.
  destruct (svc (fetches w) (clock w) (OneId task_id)) as [e|[|s l]];
    try reflexivity.
  cbn [subscript0 ret].
  destruct (finished (state s)).
  - unfold print, ret.
    destruct (message_truthy (error_message s)); reflexivity.
  - destruct (log_progress && Qgeb (clock w - start - last_check) 30);
      unfold datetime_now, print, ret, time_sleep; cbn;
      destruct (Qgtb (timeout - (clock w - start)) 0); cbn;
      try reflexivity;
      match goal with
      | |- context [Waiter.wait_loop ?a ?b ?c ?d ?n ?s ?l ?w] =>
          destruct (Waiter.wait_loop a b c d n s l w) as [[? ?] ?]
      end; reflexivity.
Qed.

Lemma wait_for_task_unfold fuel w :
  wait_for_task fuel w =
    match wait_loop fuel (clock w) 0 w with
    | (Ok Returned, w', log) => (Ok tt, w', log)
    | (Ok (Broke elapsed), w', log) =>
        (Ok tt, w', log ++ [Print (TimedOut task_id elapsed)])
    | (Raise e, w', log) => (Raise e, w', log)
    | (OutOfFuel, w', log) => (OutOfFuel, w', log)
    end.
Proof.
  unfold Waiter.wait_for_task, bind, time_time. cbn.
  destruct (Waiter.wait_loop _ _ _ _ fuel (clock w) 0 w)
    as [[[[|e]|e|] w'] log]; cbn; rewrite ?app_nil_r; reflexivity.
Qed.

(** *** Termination *)

Lemma wait_loop_fuel n : forall start last_check w,
  timeout - (clock w - start) <= 10 * Qnat n ->
  (wait_loop (S n) start last_check w).1.1 ≠ OutOfFuel.
Proof.
  induction n as [|n IH]; intros start last_check w Hrem;
    rewrite wait_loop_unfold; cbv zeta;
    destruct (svc (fetches w) (clock w) (OneId task_id)) as [e|[|s l]];
    try discriminate;
    destruct (finished (state s)); try discriminate;
    destruct (Qgtb (timeout - (clock w - start)) 0) eqn:Hgt;
    try discriminate; apply Qgtb_true in Hgt.
  - assert (H0 : Qnat 0 == 0) by reflexivity. lra.
  - match goal with
    | |- context [Waiter.wait_loop ?a ?b ?c ?d ?n ?s ?l ?w] =>
        specialize (IH s l w);
        destruct (Waiter.wait_loop a b c d n s l w) as [[res w'] log]
    end.
    simpl in *. apply IH.
    pose proof (Qnat_S n) as HS. pose proof (Qnat_nonneg n) as Hn.
    destruct (Qmin_10_cases (timeout - (clock w - start)))
      as [[H1 H2]|[H1 H2]]; lra.
Qed.

Lemma wait_for_task_fuel fuel w :
  (polls_bound timeout <= fuel)%nat ->
  (wait_for_task fuel w).1.1 ≠ OutOfFuel.
Proof.
  intros Hfuel. destruct fuel as [|n]; [unfold polls_bound in Hfuel; lia|].
  rewrite wait_for_task_unfold.
  pose proof (wait_loop_fuel n (clock w) 0 w) as H.
  destruct (wait_loop (S n) (clock w) 0 w) as [[[[|e]|e|] w'] log];
    try discriminate.
  exfalso. apply H; [|reflexivity].
  pose proof (polls_bound_enough timeout) as Hb.
  assert (Hle : Qnat (Z.to_nat (Qceiling (timeout / 10))) <= Qnat n)
    by (apply Qnat_le; unfold polls_bound in Hfuel; lia).
  lra.
Qed.

(** *** The clock advances by the sleeps *)

Lemma slept_progress r now st elapsed last_check rest :
  slept (Fetch (OneId task_id) r ::
         progress_lines task_id log_progress now st elapsed last_check
         ++ rest) = slept rest.
Proof.
  unfold progress_lines.
  destruct (progress_due log_progress elapsed last_check); reflexivity.
Qed.

Lemma slept_ending r s elapsed :
  slept (Fetch (OneId task_id) r :: ending_lines task_id s elapsed) = 0.
Proof.
  unfold ending_lines.
  destruct (message_truthy (error_message s)); reflexivity.
Qed.

Lemma wait_loop_clock fuel : forall start last_check w res w' log,
  wait_loop fuel start last_check w = (res, w', log) ->
  clock w' == clock w + slept log.
Proof.
  induction fuel as [|n IH]; intros start last_check w res w' log.
  - intros [= <- <- <-]. simpl. lra.
  - rewrite wait_loop_unfold; cbv zeta.
    destruct (svc (fetches w) (clock w) (OneId task_id)) as [e|[|s l]].
    + intros [= <- <- <-]. simpl. lra.
    + intros [= <- <- <-]. simpl. lra.
    + destruct (finished (state s)).
      { intros [= <- <- <-]. rewrite slept_ending. simpl. lra. }
      destruct (Qgtb (timeout - (clock w - start)) 0).
      * match goal with
        | |- context [Waiter.wait_loop ?a ?b ?c ?d ?n ?s ?l ?w] =>
            specialize (IH s l w);
            destruct (Waiter.wait_loop a b c d n s l w)
              as [[res1 w1] log1]
        end.
        intros [= <- <- <-]. rewrite slept_progress.
        specialize (IH _ _ _ eq_refl). simpl in *. lra.
      * intros [= <- <- <-].
        rewrite <- (app_nil_r (progress_lines _ _ _ _ _ _)).
        rewrite slept_progress. simpl. lra.
Qed.

(** *** Sleeps *)


(** *** Elapsed times reported *)

Ltac reports_here Hin :=
  repeat (apply Forall_cons_2;
          [ let e := fresh "e" in
            let Hr := fresh "Hr" in
            intros e Hr; simpl in Hr;
            first [ discriminate Hr | injection Hr as <-; exact Hin ]
          | ]);
  try apply Forall_nil_2.

Lemma wait_loop_reports fuel : forall start last_check w res w' log,
  within_timeout timeout (clock w - start) ->
  wait_loop fuel start last_check w = (res, w', log) ->
  Forall (fun ev => forall e, reported_elapsed ev = Some e ->
                              within_timeout timeout e) log /\
  (forall e, res = Ok (Broke e) ->
             within_timeout timeout e /\ timeout <= e) /\
  within_timeout timeout (clock w' - start).
Proof.
  induction fuel as [|n IH]; intros start last_check w res w' log Hin.
  - intros [= <- <- <-]. split; [constructor | split; [discriminate|]].
    exact Hin.
  - rewrite wait_loop_unfold; cbv zeta.
    destruct (svc (fetches w) (clock w) (OneId task_id)) as [e|[|s l]].
    + intros [= <- <- <-].
      split; [|split; [discriminate | exact Hin]]. reports_here Hin.
    + intros [= <- <- <-].
      split; [|split; [discriminate | exact Hin]]. reports_here Hin.
    + destruct (finished (state s)).
      { intros [= <- <- <-].
        split; [|split; [discriminate | exact Hin]].
        unfold ending_lines.
        destruct (message_truthy (error_message s)); reports_here Hin. }
      destruct (Qgtb (timeout - (clock w - start)) 0) eqn:Hgt.
      * apply Qgtb_true in Hgt.
        match goal with
        | |- context [Waiter.wait_loop ?a ?b ?c ?d ?n ?s ?l ?w] =>
            specialize (IH s l w);
            destruct (Waiter.wait_loop a b c d n s l w)
              as [[res1 w1] log1]
        end.
        intros [= <- <- <-].
        assert (Hin' : within_timeout timeout
                  (clock w + Qmin 10 (timeout - (clock w - start))
                   - start)).
        { destruct Hin as [Hin0 Hin1]. unfold within_timeout.
          pose proof (Q.le_max_r 0 timeout).
          destruct (Qmin_10_cases (timeout - (clock w - start)))
            as [[H1 H2]|[H1 H2]]; split; lra. }
        destruct (IH _ _ _ Hin' eq_refl) as (IH1 & IH2 & IH3).
        split; [|split; [exact IH2 | exact IH3]]. unfold progress_lines.
        destruct (progress_due log_progress _ _); simpl;
          reports_here Hin; exact IH1.
      * apply Qgtb_false in Hgt. intros [= <- <- <-]. split.
        -- unfold progress_lines.
           destruct (progress_due log_progress _ _); reports_here Hin.
        -- split; [|exact Hin].
           intros e [= <-]. split; [exact Hin | lra].
Qed.

(** *** Progress lines *)

Lemma wait_loop_progress_rule fuel :
  forall start last_check w res w' log,
  wait_loop fuel start last_check w = (res, w', log) ->
  progress_rule nonterminal task_id log_progress start (clock w)
    last_check None log.
Proof.
  induction fuel as [|n IH]; intros start last_check w res w' log.
  - intros [= <- <- <-]. reflexivity.
  - rewrite wait_loop_unfold; cbv zeta.
    destruct (svc (fetches w) (clock w) (OneId task_id)) as [e|[|s l]].
    + intros [= <- <- <-]. simpl. auto.
    + intros [= <- <- <-]. simpl. auto.
    + unfold progress_lines, next_check, progress_due.
      destruct (finished (state s)) eqn:Hfin.
      { intros [= <- <- <-]. unfold ending_lines.
        destruct (message_truthy (error_message s)); simpl;
          unfold nonterminal; rewrite Hfin; simpl; auto. }
      destruct (Qgtb (timeout - (clock w - start)) 0) eqn:Hgt.
      * match goal with
        | |- context [Waiter.wait_loop ?a ?b ?c ?d ?n ?s ?l ?w] =>
            specialize (IH s l w);
            destruct (Waiter.wait_loop a b c d n s l w)
              as [[res1 w1] log1]
        end.
        intros [= <- <- <-]. specialize (IH _ _ _ eq_refl).
        simpl in IH. simpl. unfold nonterminal. rewrite Hfin. simpl.
        destruct (log_progress && Qgeb (clock w - start - last_check) 30);
          simpl; auto 10.
      * intros [= <- <- <-]. simpl. unfold nonterminal. rewrite Hfin.
        simpl.
        destruct (log_progress && Qgeb (clock w - start - last_check) 30);
          simpl; auto 10.
Qed.

(** *** Kinds of events *)

Lemma wait_loop_single_task_events fuel :
  forall start last_check w res w' log,
  wait_loop fuel start last_check w = (res, w', log) ->
  Forall single_task_event log.
Proof.
  induction fuel as [|n IH]; intros start last_check w res w' log.
  - intros [= <- <- <-]. constructor.
  - rewrite wait_loop_unfold; cbv zeta.
    destruct (svc (fetches w) (clock w) (OneId task_id)) as [e|[|s l]].
    + intros [= <- <- <-]. repeat constructor.
    + intros [= <- <- <-]. repeat constructor.
    + unfold progress_lines.
      destruct (finished (state s)).
      { intros [= <- <- <-]. unfold ending_lines.
        destruct (message_truthy (error_message s)); repeat constructor. }
      destruct (Qgtb (timeout - (clock w - start)) 0) eqn:Hgt.
      * match goal with
        | |- context [Waiter.wait_loop ?a ?b ?c ?d ?n ?s ?l ?w] =>
            specialize (IH s l w);
            destruct (Waiter.wait_loop a b c d n s l w)
              as [[res1 w1] log1]
        end.
        intros [= <- <- <-]. specialize (IH _ _ _ eq_refl).
        destruct (progress_due log_progress _ _); simpl;
          repeat (constructor; [repeat constructor|]); exact IH.
      * intros [= <- <- <-].
        destruct (progress_due log_progress _ _); repeat constructor.
Qed.

(** *** How a wait ends when every fetch succeeds *)

Lemma wait_loop_outcome n : forall start last_check w,
  timeout - (clock w - start) <= 10 * Qnat n ->
  (forall k t, exists s rest, svc k t (OneId task_id) = inr (s :: rest)) ->
  exists w' pre,
    Forall waiting pre /\
    ((exists s rest,
         finished (state s) = true /\
         wait_loop (S n) start last_check w =
           (Ok Returned, w',
            pre ++ Fetch (OneId task_id) (inr (s :: rest))
                :: ending_lines task_id s (clock w' - start))) \/
     wait_loop (S n) start last_check w =
       (Ok (Broke (clock w' - start)), w', pre)).
Proof.
  induction n as [|n IH]; intros start last_check w Hrem Hsvc;
    rewrite wait_loop_unfold; cbv zeta;
    destruct (Hsvc (fetches w) (clock w)) as (s & rest & Hr); rewrite Hr;
    destruct (finished (state s)) eqn:Hfin;
    try (exists (polled w), []; split; [constructor|]; left;
         exists s, rest; split; [exact Hfin | reflexivity]);
    destruct (Qgtb (timeout - (clock w - start)) 0) eqn:Hgt;
    try (exists (polled w),
           (Fetch (OneId task_id) (inr (s :: rest))
            :: progress_lines task_id log_progress (clock w) (state s)
                 (clock w - start) last_check);
         split; [|right; reflexivity];
         apply Forall_cons_2; [exact Hfin|]; unfold progress_lines;
         destruct (progress_due log_progress _ _);
         repeat constructor).
  - apply Qgtb_true in Hgt.
    assert (H0 : Qnat 0 == 0) by reflexivity. lra.
  - apply Qgtb_true in Hgt.
    destruct (IH start
                (next_check log_progress (clock w - start) last_check)
                {| clock := clock w + Qmin 10 (timeout - (clock w - start));
                   fetches := S (fetches w) |})
      as (w' & pre & Hpre & Hend); [|exact Hsvc|].
    { pose proof (Qnat_S n) as HS. pose proof (Qnat_nonneg n) as Hn.
      simpl.
      destruct (Qmin_10_cases (timeout - (clock w - start)))
        as [[H1 H2]|[H1 H2]]; lra. }
    exists w',
      (Fetch (OneId task_id) (inr (s :: rest))
       :: progress_lines task_id log_progress (clock w) (state s)
            (clock w - start) last_check
       ++ Sleep (Qmin 10 (timeout - (clock w - start))) :: pre).
    split.
    { apply Forall_cons_2; [exact Hfin|]. apply Forall_app. split.
      - unfold progress_lines.
        destruct (progress_due log_progress _ _); repeat constructor.
      - apply Forall_cons_2; [exact I | exact Hpre]. }
    destruct Hend as [(s' & rest' & Hfin' & Heq) | Heq]; rewrite Heq.
    + left. exists s', rest'. split; [exact Hfin'|].
      simpl. rewrite <- app_assoc. reflexivity.
    + right. reflexivity.
Qed.

(** *** The fetches are the answers of the service *)



(** *** How the loop is left, or not yet left, when every fetch succeeds *)


End Single.

(** ** Logs *)

Lemma slept_app l1 l2 : slept (l1 ++ l2) == slept l1 + slept l2.
Proof.
  induction l1 as [|[a r|d|l|t r log] l1 IH]; simpl; lra.
Qed.


Lemma progress_rule_snoc_timeout counts id lp start task e log :
  forall clk last due,
  progress_rule counts id lp start clk last due log ->
  progress_rule counts id lp start clk last due
    (log ++ [Print (TimedOut task e)]).
Proof.
  induction log as [|[a [ex|[|s sl]]|d|[]|t r lg] log IH];
    intros clk last due; simpl; try (intros ->; auto);
    intuition auto.
Qed.

Lemma progress_rule_spaced counts id lp start log :
  forall clk last due prev,
  progress_rule counts id lp start clk last due log ->
  prev - start == last ->
  (forall st, due = Some st -> 30 <= clk - start - last) ->
  spaced prev (progress_stamps log).
Proof.
  induction log as [|[a [ex|[|s sl]]|d|[]|t r lg] log IH];
    intros clk last due prev; simpl; try exact (fun _ _ _ => I);
    try (intros [-> Hrest] Hprev Hdue;
         apply (IH _ _ _ _ Hrest Hprev); discriminate).
  - intros [-> Hrest] Hprev Hdue. apply (IH _ _ _ _ Hrest Hprev).
    intros st.
    destruct (counts s && lp && Qgeb (clk - start - last) 30) eqn:Hc;
      [|discriminate].
    intros _. apply andb_true_iff in Hc as [_ Hc].
    apply Qgeb_true in Hc. exact Hc.
  - intros (Hd & -> & -> & Hrest) Hprev Hdue. split.
    + specialize (Hdue _ Hd). lra.
    + apply (IH _ _ _ _ Hrest); [lra | discriminate].
Qed.

Lemma progress_rule_disabled counts id start log :
  forall clk last,
  progress_rule counts id false start clk last None log ->
  progress_stamps log = [].
Proof.
  induction log as [|[a [ex|[|s sl]]|d|[]|t r lg] log IH];
    intros clk last; simpl; try reflexivity;
    try (intros [_ Hrest]; apply (IH _ _ Hrest)).
  - rewrite andb_false_r. simpl. intros [_ Hrest]. apply (IH _ _ Hrest).
  - intros [Hd _]. discriminate.
Qed.





End WaiterFacts.

(* ===================================================================== *)
(** * Binary64 arithmetic in the loop of the waiter                       *)
(* ===================================================================== *)

Module Binary64Facts.
Import Binary64 Binary64Aux.
Local Open Scope Z_scope.

(** ** Whole numbers below 2^53 are computed with exactly *)

Lemma digits2_size p : digits2_pos p = Pos.size p.
Proof. induction p as [p IH|p IH|]; simpl; rewrite ?IH; reflexivity. Qed.

Lemma digits2_log2 p : Z.pos (digits2_pos p) = Z.log2 (Z.pos p) + 1.
Proof.
  rewrite digits2_size. destruct p as [p|p|]; simpl; try lia.
Qed.

Lemma iter_xO p d : Z.pos (Pos.iter xO p d) = Z.pos p * 2 ^ Z.pos d.
Proof.
  induction d as [|d IH] using Pos.peano_ind.
  - simpl. lia.
  - rewrite Pos.iter_succ, Pos2Z.inj_succ, Z.pow_succ_r by lia.
    rewrite Pos2Z.inj_xO, IH. lia.
Qed.

Lemma iter_pos_iter {A} (f : A -> A) n : forall x,
  iter_pos f n x = Pos.iter f x n.
Proof.
  induction n as [n IH|n IH|]; intros x; simpl;
    rewrite ?IH, ?Pos.iter_swap; reflexivity.
Qed.

(** Shifting right drops zero bits only. *)
Lemma shr_exact n : forall p,
  iter_pos shr_1 n
    {| shr_m := Z.pos (Pos.iter xO p n); shr_r := false; shr_s := false |} =
    {| shr_m := Z.pos p; shr_r := false; shr_s := false |}.
Proof.
  intros p. rewrite iter_pos_iter.
  induction n as [|n IH] using Pos.peano_ind.
  - reflexivity.
  - rewrite Pos.iter_succ_r, Pos.iter_succ. simpl. exact IH.
Qed.

(** The float of a positive whole number [K] below 2^53, with sign [s]:
    a mantissa of 53 bits. *)
Definition canon (s : bool) (K : Z) : float :=
  S754_finite s (Z.to_pos (K * 2 ^ (52 - Z.log2 K))) (Z.log2 K - 52).

(** The float of a whole number of magnitude below 2^53. *)
Definition float_of_Z (z : Z) : float :=
  match z with
  | 0 => S754_zero false
  | Z.pos _ => canon false z
  | Z.neg _ => canon true (- z)
  end.

Lemma log2_bound K : 0 < K < 2 ^ 53 -> 0 <= Z.log2 K <= 52.
Proof.
  intros [H0 H1]. split; [apply Z.log2_nonneg|].
  assert (Z.log2 K < 53); [|lia].
  apply Z.log2_lt_pow2; lia.
Qed.

(** Rounding a whole number below 2^53, given with trailing zero bits,
    changes nothing. *)
Lemma binary_round_whole s p K i :
  0 < K < 2 ^ 53 -> 0 <= i -> Z.pos p = K * 2 ^ i ->
  binary_round prec emax s p (- i) = canon s K.
Proof.
  intros HK Hi Hp.
  pose proof (log2_bound K HK) as HL.
  assert (Hlog : Z.log2 (Z.pos p) = Z.log2 K + i).
  { rewrite Hp, Z.log2_mul_pow2 by lia. lia. }
  assert (HM : 0 < K * 2 ^ (52 - Z.log2 K)).
  { apply Z.mul_pos_pos; [lia|]. apply Z.pow_pos_nonneg; lia. }
  assert (HlogM : Z.log2 (K * 2 ^ (52 - Z.log2 K)) = 52).
  { rewrite Z.log2_mul_pow2 by lia. lia. }
  unfold binary_round, canon.
  rewrite digits2_log2, Hlog.
  replace (fexp prec emax (Z.log2 K + i + 1 + - i)) with (Z.log2 K - 52)
    by (unfold fexp, emin, prec, emax; lia).
  assert (Haux : forall mz, Z.pos mz = K * 2 ^ (52 - Z.log2 K) ->
            binary_round_aux prec emax s (Z.pos mz) (Z.log2 K - 52)
              loc_Exact =
            S754_finite s (Z.to_pos (K * 2 ^ (52 - Z.log2 K)))
              (Z.log2 K - 52)).
  { intros mz Hmz.
    assert (Hdig : Z.pos (digits2_pos mz) = 53)
      by (rewrite digits2_log2, Hmz, HlogM; lia).
    assert (Hn : fexp prec emax (53 + (Z.log2 K - 52)) - (Z.log2 K - 52)
                 = 0) by (unfold fexp, emin, prec, emax; lia).
    unfold binary_round_aux, shr_fexp.
    cbn [Zdigits2 shr_record_of_loc]. rewrite Hdig, Hn.
    cbn [shr shr_m loc_of_shr_record round_nearest_even Zdigits2
         shr_record_of_loc].
    rewrite Hdig, Hn. cbn [shr shr_m].
    replace (Z.log2 K - 52 <=? emax - prec) with true
      by (symmetry; apply Z.leb_le; unfold emax, prec; lia).
    rewrite <- Hmz. reflexivity. }
  unfold shl_align.
  destruct (Z.log2 K - 52 - - i) as [|d|d] eqn:Hd.
  - (* the mantissa has 53 bits *)
    replace (- i) with (Z.log2 K - 52) by lia.
    apply Haux. rewrite Hp. f_equal. f_equal. lia.
  - (* more than 53 bits: shift right, the bits dropped are zero *)
    set (mz := Z.to_pos (K * 2 ^ (52 - Z.log2 K))).
    assert (Hmz : Z.pos mz = K * 2 ^ (52 - Z.log2 K))
      by (apply Z2Pos.id; lia).
    assert (Hdig : Z.pos (digits2_pos mz) = 53)
      by (rewrite digits2_log2, Hmz, HlogM; lia).
    assert (Hpd : p = Pos.iter xO mz d).
    { apply Pos2Z.inj. rewrite iter_xO, Hmz.
      rewrite Hp, <- Z.mul_assoc, <- Z.pow_add_r by lia.
      f_equal. f_equal. lia. }
    unfold binary_round_aux, shr_fexp.
    cbn [Zdigits2 shr_record_of_loc]. rewrite digits2_log2, Hlog.
    replace (fexp prec emax (Z.log2 K + i + 1 + - i) - - i) with (Z.pos d)
      by (unfold fexp, emin, prec, emax; lia).
    cbn [shr]. rewrite Hpd, shr_exact.
    cbn [shr_m loc_of_shr_record round_nearest_even Zdigits2
         shr_record_of_loc].
    rewrite Hdig.
    replace (fexp prec emax (53 + (- i + Z.pos d)) - (- i + Z.pos d))
      with 0 by (unfold fexp, emin, prec, emax; lia).
    cbn [shr shr_m].
    replace (- i + Z.pos d) with (Z.log2 K - 52) by lia.
    replace (Z.log2 K - 52 <=? emax - prec) with true
      by (symmetry; apply Z.leb_le; unfold emax, prec; lia).
    reflexivity.
  - (* fewer than 53 bits: shift left *)
    apply Haux. rewrite iter_xO, Hp, <- Z.mul_assoc, <- Z.pow_add_r by lia.
    f_equal. f_equal. lia.
Qed.

Lemma of_int_whole z : - 2 ^ 53 < z < 2 ^ 53 -> of_int z = float_of_Z z.
Proof.
  intros Hz. unfold of_int, binary_normalize, float_of_Z.
  destruct z as [|p|p]; [reflexivity| |].
  - change 0 with (- 0). apply binary_round_whole; lia.
  - change 0 with (- 0). apply binary_round_whole; lia.
Qed.

Lemma normalize_whole m z i :
  - 2 ^ 53 < z < 2 ^ 53 -> 0 <= i -> m = z * 2 ^ i ->
  binary_normalize prec emax m (- i) false = float_of_Z z.
Proof.
  intros Hz Hi Hm.
  assert (Hpow : 0 < 2 ^ i) by (apply Z.pow_pos_nonneg; lia).
  unfold binary_normalize, float_of_Z.
  destruct z as [|q|q].
  - rewrite Hm. reflexivity.
  - destruct m as [|p|p]; try lia.
    apply binary_round_whole; lia.
  - destruct m as [|p|p]; try lia.
    apply binary_round_whole; lia.
Qed.

(** The mantissa of the float of a whole number, aligned to an exponent
    [ez] that is not above its own. *)
Lemma shl_align_canon K ez :
  0 < K < 2 ^ 53 -> ez <= Z.log2 K - 52 ->
  Z.pos (fst (shl_align (Z.to_pos (K * 2 ^ (52 - Z.log2 K)))
                (Z.log2 K - 52) ez)) = K * 2 ^ (- ez).
Proof.
  intros HK Hez. pose proof (log2_bound K HK) as HL.
  assert (HM : 0 < K * 2 ^ (52 - Z.log2 K)).
  { apply Z.mul_pos_pos; [lia|]. apply Z.pow_pos_nonneg; lia. }
  unfold shl_align.
  destruct (ez - (Z.log2 K - 52)) as [|d|d] eqn:Hd; simpl fst.
  - rewrite Z2Pos.id by lia. f_equal. f_equal. lia.
  - lia.
  - rewrite iter_xO, Z2Pos.id by lia.
    rewrite <- Z.mul_assoc, <- Z.pow_add_r by lia. f_equal. f_equal. lia.
Qed.

Lemma float_of_Z_finite z :
  z <> 0 ->
  float_of_Z z =
    S754_finite (z <? 0)
      (Z.to_pos (Z.abs z * 2 ^ (52 - Z.log2 (Z.abs z))))
      (Z.log2 (Z.abs z) - 52).
Proof.
  intros Hz. destruct z as [|p|p]; [contradiction|reflexivity|reflexivity].
Qed.

Lemma cond_Zopp_abs z : cond_Zopp (z <? 0) (Z.abs z) = z.
Proof. destruct z; reflexivity. Qed.

Lemma aligned z ez :
  z <> 0 -> - 2 ^ 53 < z < 2 ^ 53 -> ez <= Z.log2 (Z.abs z) - 52 ->
  cond_Zopp (z <? 0)
    (Z.pos (fst (shl_align
                   (Z.to_pos (Z.abs z * 2 ^ (52 - Z.log2 (Z.abs z))))
                   (Z.log2 (Z.abs z) - 52) ez))) = z * 2 ^ (- ez).
Proof.
  intros Hz Hb Hez. rewrite shl_align_canon by lia.
  rewrite <- (cond_Zopp_abs z) at 3.
  destruct (z <? 0); simpl; lia.
Qed.

Lemma add_whole a b :
  - 2 ^ 53 < a < 2 ^ 53 -> - 2 ^ 53 < b < 2 ^ 53 ->
  - 2 ^ 53 < a + b < 2 ^ 53 ->
  add (float_of_Z a) (float_of_Z b) = float_of_Z (a + b).
Proof.
  intros Ha Hb Hab.
  destruct (Z.eq_dec a 0) as [->|Ha0].
  { simpl. destruct b; reflexivity. }
  destruct (Z.eq_dec b 0) as [->|Hb0].
  { rewrite Z.add_0_r. destruct a; reflexivity. }
  pose proof (log2_bound (Z.abs a) ltac:(lia)) as HLa.
  pose proof (log2_bound (Z.abs b) ltac:(lia)) as HLb.
  rewrite (float_of_Z_finite a Ha0), (float_of_Z_finite b Hb0).
  unfold add, SFadd.
  rewrite !aligned by lia.
  set (ez := Z.min (Z.log2 (Z.abs a) - 52) (Z.log2 (Z.abs b) - 52)).
  replace ez with (- - ez) at 3 by lia.
  apply normalize_whole; lia.
Qed.

Lemma sub_whole a b :
  - 2 ^ 53 < a < 2 ^ 53 -> - 2 ^ 53 < b < 2 ^ 53 ->
  - 2 ^ 53 < a - b < 2 ^ 53 ->
  sub (float_of_Z a) (float_of_Z b) = float_of_Z (a - b).
Proof.
  intros Ha Hb Hab.
  destruct (Z.eq_dec b 0) as [->|Hb0].
  { rewrite Z.sub_0_r. destruct a; reflexivity. }
  destruct (Z.eq_dec a 0) as [->|Ha0].
  { destruct b; try contradiction; reflexivity. }
  pose proof (log2_bound (Z.abs a) ltac:(lia)) as HLa.
  pose proof (log2_bound (Z.abs b) ltac:(lia)) as HLb.
  rewrite (float_of_Z_finite a Ha0), (float_of_Z_finite b Hb0).
  unfold sub, SFsub.
  rewrite !aligned by lia.
  set (ez := Z.min (Z.log2 (Z.abs a) - 52) (Z.log2 (Z.abs b) - 52)).
  replace ez with (- - ez) at 3 by lia.
  apply normalize_whole; lia.
Qed.

Lemma log2_lt_lt a b : 0 < a -> 0 < b -> Z.log2 a < Z.log2 b -> a < b.
Proof.
  intros Ha Hb Hl.
  destruct (Z.lt_ge_cases a b) as [H|H]; [exact H|].
  apply Z.log2_le_mono in H. lia.
Qed.

Lemma compare_canon_pos a b :
  0 < a < 2 ^ 53 -> 0 < b < 2 ^ 53 ->
  match Z.log2 a - 52 ?= Z.log2 b - 52 with
  | Lt => Lt
  | Gt => Gt
  | Eq => Pos.compare_cont Eq (Z.to_pos (a * 2 ^ (52 - Z.log2 a)))
            (Z.to_pos (b * 2 ^ (52 - Z.log2 b)))
  end = (a ?= b).
Proof.
  intros Ha Hb.
  pose proof (log2_bound a Ha) as HLa. pose proof (log2_bound b Hb) as HLb.
  destruct (Z.compare_spec (Z.log2 a - 52) (Z.log2 b - 52)) as [He|Hl|Hg].
  - assert (Hl : Z.log2 a = Z.log2 b) by lia. rewrite Hl.
    assert (Hpow : 0 < 2 ^ (52 - Z.log2 b))
      by (apply Z.pow_pos_nonneg; lia).
    change (Pos.compare_cont Eq ?x ?y) with (Pos.compare x y).
    rewrite Pos2Z.inj_compare, !Z2Pos.id by nia.
    destruct (Z.compare_spec a b) as [H|H|H].
    + subst. apply Z.compare_refl.
    + apply Z.compare_lt_iff. nia.
    + apply Z.compare_gt_iff. nia.
  - symmetry. apply Z.compare_lt_iff. apply log2_lt_lt; lia.
  - symmetry. apply Z.compare_gt_iff. apply log2_lt_lt; lia.
Qed.

Lemma compare_whole a b :
  - 2 ^ 53 < a < 2 ^ 53 -> - 2 ^ 53 < b < 2 ^ 53 ->
  SFcompare (float_of_Z a) (float_of_Z b) = Some (a ?= b).
Proof.
  intros Ha Hb.
  destruct a as [|p|p], b as [|q|q]; try reflexivity.
  - unfold float_of_Z, canon, SFcompare. f_equal.
    apply compare_canon_pos; lia.
  - unfold float_of_Z, canon, SFcompare. f_equal.
    change (- Z.neg p) with (Z.pos p). change (- Z.neg q) with (Z.pos q).
    pose proof (compare_canon_pos (Z.pos p) (Z.pos q)
                  ltac:(lia) ltac:(lia)) as H.
    change (Z.neg p ?= Z.neg q) with (CompOpp (Z.pos p ?= Z.pos q)).
    rewrite <- H.
    destruct (Z.log2 (Z.pos p) - 52 ?= Z.log2 (Z.pos q) - 52); reflexivity.
Qed.

Lemma ltb_whole a b :
  - 2 ^ 53 < a < 2 ^ 53 -> - 2 ^ 53 < b < 2 ^ 53 ->
  ltb (float_of_Z a) (float_of_Z b) = (a <? b).
Proof.
  intros Ha Hb. unfold ltb, SFltb. rewrite compare_whole by assumption.
  unfold Z.ltb. destruct (a ?= b); reflexivity.
Qed.

Lemma leb_whole a b :
  - 2 ^ 53 < a < 2 ^ 53 -> - 2 ^ 53 < b < 2 ^ 53 ->
  leb (float_of_Z a) (float_of_Z b) = (a <=? b).
Proof.
  intros Ha Hb. unfold leb, SFleb. rewrite compare_whole by assumption.
  unfold Z.leb. destruct (a ?= b); reflexivity.
Qed.

(** ** A run that rounding keeps from ending *)

(** With a timeout of 0.1 and a start at 0.7 the first sleep takes the
    clock to 0.7999999999999999, where the elapsed time is just below 0.1
    and 2^-55 seconds remain.  Sleeping them leaves the clock where it is:
    each further pass finds the same time remaining. *)
Lemma clock_stuck log_progress fuel : forall n last_check,
  (wait_loop keeps_running "t1" tenth log_progress fuel seven_tenths
     last_check
     {| clock := add seven_tenths tenth; fetches := n |}).1.1 = OutOfFuel.
Proof.
  induction fuel as [|f IH]; intros n last_check; [reflexivity|].
  cbn [wait_loop]. cbv zeta. cbn [clock fetches keeps_running].
  change (Waiter.finished (Waiter.state WaiterAux.RUNNING)) with false.
  cbv iota.
  assert (H1 : ltb (of_int 0)
                 (sub tenth (sub (add seven_tenths tenth) seven_tenths))
               = true) by (vm_compute; reflexivity).
  assert (H2 : ltb (sub tenth (sub (add seven_tenths tenth) seven_tenths))
                 (of_int 10) = true) by (vm_compute; reflexivity).
  assert (H3 : add (add seven_tenths tenth)
                 (sub tenth (sub (add seven_tenths tenth) seven_tenths))
               = add seven_tenths tenth) by (vm_compute; reflexivity).
  rewrite H1, H2, H3.
  match goal with
  | |- context [wait_loop ?s ?id ?t ?l f ?st ?la ?w] =>
      specialize (IH (S n) la);
      destruct (wait_loop s id t l f st la w) as [[r w'] lg]
  end.
  exact IH.
Qed.

(** Computed in binary64, with the clock moved only by the sleeps, the
    wait for a task that keeps running, with a timeout of 0.1 seconds and
    begun when the clock shows 0.7, does not end: whatever the number of
    passes allowed, the loop is still running when they are used up. *)
Lemma wait_never_ends log_progress fuel :
  (wait_for_task keeps_running "t1" tenth log_progress fuel
     {| clock := seven_tenths; fetches := 0 |}).1.1 = OutOfFuel.
Proof.
  unfold wait_for_task. cbn [clock].
  destruct fuel as [|f]; [reflexivity|].
  cbn [wait_loop]. cbv zeta. cbn [clock fetches keeps_running].
  change (Waiter.finished (Waiter.state WaiterAux.RUNNING)) with false.
  cbv iota.
  assert (H1 : ltb (of_int 0) (sub tenth (sub seven_tenths seven_tenths))
               = true) by (vm_compute; reflexivity).
  assert (H2 : ltb (sub tenth (sub seven_tenths seven_tenths)) (of_int 10)
               = true) by (vm_compute; reflexivity).
  assert (H3 : sub tenth (sub seven_tenths seven_tenths) = tenth)
    by (vm_compute; reflexivity).
  rewrite H1, H2, H3.
  pose proof (clock_stuck log_progress f 1) as Hs.
  match goal with
  | |- context [wait_loop ?s ?id ?t ?l f ?st ?la ?w] =>
      specialize (Hs la);
      destruct (wait_loop s id t l f st la w) as [[r w'] lg]
  end.
  cbn [fst] in Hs. subst r. reflexivity.
Qed.

End Binary64Facts.

(* ===================================================================== *)
(** * The run on rationals and the run on floats                          *)
(* ===================================================================== *)

Module Agreement.
Import Waiter WaiterAux WaiterFacts Binary64Aux Binary64Facts.
Local Open Scope Q_scope.

(** ** Floats of whole numbers *)

Lemma whole_floor q : whole q = true -> q == inject_Z (Qfloor q).
Proof.
  intros H. apply whole_spec in H as [z Hz].
  rewrite Hz at 2. rewrite Qfloor_Z. exact Hz.
Qed.

Lemma floor_minus x y :
  whole x = true -> whole y = true ->
  Qfloor (x - y) = (Qfloor x - Qfloor y)%Z.
Proof.
  intros Hx Hy. apply whole_floor in Hx, Hy.
  rewrite Hx, Hy at 1. unfold Qminus.
  rewrite <- inject_Z_opp, <- inject_Z_plus. apply Qfloor_Z.
Qed.

Lemma floor_plus x y :
  whole x = true -> whole y = true ->
  Qfloor (x + y) = (Qfloor x + Qfloor y)%Z.
Proof.
  intros Hx Hy. apply whole_floor in Hx, Hy.
  rewrite Hx, Hy at 1. rewrite <- inject_Z_plus. apply Qfloor_Z.
Qed.

Section Range.
Variable R : Q.
Hypothesis HR : R = inject_Z (2 ^ 51).

(** Magnitude at most 2^52. *)
Local Abbreviation small q := (- (2 * R) <= q /\ q <= 2 * R).

Lemma floor_range q :
  small q -> (- 2 ^ 53 < Qfloor q < 2 ^ 53)%Z.
Proof.
  intros [Hlo Hhi]. subst R.
  assert (H1 : inject_Z (- 2 ^ 52) <= q).
  { assert (E : inject_Z (- 2 ^ 52) == - (2 * inject_Z (2 ^ 51)))
      by reflexivity.
    rewrite E. exact Hlo. }
  assert (H2 : q <= inject_Z (2 ^ 52)).
  { assert (E : inject_Z (2 ^ 52) == 2 * inject_Z (2 ^ 51)) by reflexivity.
    rewrite E. exact Hhi. }
  apply Qfloor_resp_le in H1, H2. rewrite Qfloor_Z in H1, H2. lia.
Qed.

Lemma float_of_eq q : small q -> float_of q = float_of_Z (Qfloor q).
Proof.
  intros Hq. unfold float_of. apply of_int_whole, floor_range, Hq.
Qed.

Lemma float_sub x y :
  whole x = true -> whole y = true -> small x -> small y -> small (x - y) ->
  Binary64.sub (float_of x) (float_of y) = float_of (x - y).
Proof.
  intros Hwx Hwy Hx Hy Hxy.
  rewrite !float_of_eq by assumption.
  pose proof (floor_range _ Hxy) as Hr.
  rewrite floor_minus in Hr |- * by assumption.
  apply sub_whole; try apply floor_range; assumption.
Qed.

Lemma float_add x y :
  whole x = true -> whole y = true -> small x -> small y -> small (x + y) ->
  Binary64.add (float_of x) (float_of y) = float_of (x + y).
Proof.
  intros Hwx Hwy Hx Hy Hxy.
  rewrite !float_of_eq by assumption.
  pose proof (floor_range _ Hxy) as Hr.
  rewrite floor_plus in Hr |- * by assumption.
  apply add_whole; try apply floor_range; assumption.
Qed.

Lemma float_positive r :
  whole r = true -> small r ->
  Binary64.ltb (Binary64.of_int 0) (float_of r) = Qgtb r 0.
Proof.
  intros Hw Hr. rewrite (float_of_eq r Hr).
  change (Binary64.of_int 0) with (float_of_Z 0).
  rewrite ltb_whole by (try apply floor_range; try assumption; lia).
  apply whole_floor in Hw.
  destruct (Qgtb r 0) eqn:Hg.
  - apply Qgtb_true in Hg. apply Z.ltb_lt.
    rewrite Hw in Hg. change 0 with (inject_Z 0) in Hg.
    rewrite Zlt_Qlt. exact Hg.
  - apply Qgtb_false in Hg. apply Z.ltb_ge.
    rewrite Hw in Hg. change 0 with (inject_Z 0) in Hg.
    rewrite Zle_Qle. exact Hg.
Qed.

Lemma float_min_10 r :
  whole r = true -> small r ->
  (if Binary64.ltb (float_of r) (Binary64.of_int 10) then float_of r
   else Binary64.of_int 10) = float_of (Qmin 10 r).
Proof.
  intros Hw Hr. rewrite (float_of_eq r Hr) at 1.
  change (Binary64.of_int 10) with (float_of_Z 10) at 1.
  rewrite ltb_whole by (try apply floor_range; try assumption; lia).
  apply whole_floor in Hw.
  destruct (Qmin_10_cases r) as [[H1 H2]|[H1 H2]].
  - assert (Hlt : (Qfloor r <? 10)%Z = true).
    { apply Z.ltb_lt. rewrite Hw in H1. change 10 with (inject_Z 10) in H1.
      rewrite Zlt_Qlt. exact H1. }
    rewrite Hlt. unfold float_of. rewrite H2. reflexivity.
  - assert (Hge : (Qfloor r <? 10)%Z = false).
    { apply Z.ltb_ge. rewrite Hw in H1. change 10 with (inject_Z 10) in H1.
      rewrite Zle_Qle. exact H1. }
    rewrite Hge. unfold float_of. rewrite H2. reflexivity.
Qed.

Lemma float_at_least_30 x :
  whole x = true -> small x ->
  Binary64.leb (Binary64.of_int 30) (float_of x) = Qgeb x 30.
Proof.
  intros Hw Hx. rewrite (float_of_eq x Hx).
  change (Binary64.of_int 30) with (float_of_Z 30).
  rewrite leb_whole by (try apply floor_range; try assumption; lia).
  apply whole_floor in Hw.
  destruct (Qgeb x 30) eqn:Hg.
  - apply Qgeb_true in Hg. apply Z.leb_le.
    rewrite Hw in Hg. change 30 with (inject_Z 30) in Hg.
    rewrite Zle_Qle. exact Hg.
  - apply not_true_iff_false in Hg. apply Z.leb_gt.
    apply Z.nle_gt. intros Hle. apply Hg, Qgeb_true.
    rewrite Hw. change 30 with (inject_Z 30). rewrite <- Zle_Qle.
    exact Hle.
Qed.

End Range.

(** ** The two loops, pass by pass *)

Section Runs.
Variable svc : Service.
Variable svc64 : Binary64.Service.
Variables (task_id : string) (timeout : Q) (log_progress : bool).
Variable R : Q.
Hypothesis HR : R = inject_Z (2 ^ 51).
Hypothesis Hsvc : same_service svc svc64.
Hypothesis Hwt : whole timeout = true.
Hypothesis Ht : - R <= timeout /\ timeout <= R.

Lemma wait_loop_agrees fuel : forall start last_check w,
  whole start = true -> - R <= start /\ start <= R ->
  whole (clock w) = true -> whole last_check = true ->
  within_timeout timeout (clock w - start) ->
  within_timeout timeout last_check ->
  let r := wait_loop svc task_id timeout log_progress fuel start
             last_check w in
  let r64 := Binary64.wait_loop svc64 task_id (float_of timeout)
               log_progress fuel (float_of start) (float_of last_check)
               (world64 w) in
  same_exit r.1.1 r64.1.1 /\ same_world r.1.2 r64.1.2 /\
  Forall2 same_event r.2 r64.2.
Proof.
  induction fuel as [|n IH];
    intros start last_check w Hws [Hs0 Hs1] Hwc Hwl [Hin0 Hin1] [Hl0 Hl1];
    cbv zeta.
  { simpl. split; [exact I|]. split; [|constructor].
    split; [exact Hwc|]. split; reflexivity. }
  destruct Ht as [Ht0 Ht1].
  assert (HR0 : 0 <= R) by (rewrite HR; vm_compute; discriminate).
  assert (Hmax : Qmax 0 timeout <= R)
    by (destruct (Q.max_spec 0 timeout) as [[_ Hm]|[_ Hm]]; lra).
  pose proof (Q.le_max_l 0 timeout) as Hm0.
  pose proof (Q.le_max_r 0 timeout) as Hm1.
  assert (Hmin : - R <= timeout - Qmax 0 timeout)
    by (destruct (Q.max_spec 0 timeout) as [[_ Hm]|[_ Hm]]; lra).
  assert (Hwe : whole (clock w - start) = true)
    by (apply whole_minus; assumption).
  assert (Hwr : whole (timeout - (clock w - start)) = true)
    by (apply whole_minus; assumption).
  assert (E1 : Binary64.sub (float_of (clock w)) (float_of start) =
               float_of (clock w - start)).
  { apply (float_sub R HR); try assumption; split; lra. }
  assert (E2 : Binary64.sub (float_of (clock w - start))
                 (float_of last_check) =
               float_of (clock w - start - last_check)).
  { apply (float_sub R HR); try assumption; split; lra. }
  assert (E3 : Binary64.leb (Binary64.of_int 30)
                 (float_of (clock w - start - last_check)) =
               Qgeb (clock w - start - last_check) 30).
  { apply (float_at_least_30 R HR);
      [apply whole_minus; assumption | split; lra]. }
  assert (E4 : Binary64.sub (float_of timeout) (float_of (clock w - start))
               = float_of (timeout - (clock w - start))).
  { apply (float_sub R HR); try assumption; split; lra. }
  assert (E5 : Binary64.ltb (Binary64.of_int 0)
                 (float_of (timeout - (clock w - start))) =
               Qgtb (timeout - (clock w - start)) 0).
  { apply (float_positive R HR); [assumption | split; lra]. }
  assert (E6 : (if Binary64.ltb (float_of (timeout - (clock w - start)))
                     (Binary64.of_int 10)
                then float_of (timeout - (clock w - start))
                else Binary64.of_int 10) =
               float_of (Qmin 10 (timeout - (clock w - start)))).
  { apply (float_min_10 R HR); [assumption | split; lra]. }
  rewrite wait_loop_unfold; cbv zeta.
  cbn [Binary64.wait_loop]. cbv zeta.
  unfold world64. cbn [Binary64.clock Binary64.fetches].
  assert (Hrc : within_pow2 52 (clock w) = true).
  { apply within_pow2_spec.
    assert (E : inject_Z (2 ^ 52) == 2 * R) by (rewrite HR; reflexivity).
    rewrite E. split; lra. }
  rewrite <- (Hsvc (fetches w) (clock w) (OneId task_id) Hwc Hrc).
  rewrite E1, E2, E3, E4, E5, E6.
  assert (Hpolled : same_world (polled w)
            {| Binary64.clock := float_of (clock w);
               Binary64.fetches := S (fetches w) |}).
  { split; [exact Hwc|]. split; reflexivity. }
  destruct (svc (fetches w) (clock w) (OneId task_id)) as [ex|[|s l]].
  - simpl. split; [reflexivity|]. split; [exact Hpolled|].
    repeat constructor.
  - simpl. split; [reflexivity|]. split; [exact Hpolled|].
    repeat constructor.
  - destruct (finished (state s)).
    { simpl. split; [exact I|]. split; [exact Hpolled|].
      unfold ending_lines.
      destruct (message_truthy (error_message s));
        repeat (constructor; simpl; auto). }
    unfold progress_lines, next_check, progress_due.
    destruct (Qgtb (timeout - (clock w - start)) 0) eqn:Hgt.
    + apply Qgtb_true in Hgt.
      assert (Hwd : whole (Qmin 10 (timeout - (clock w - start))) = true)
        by (apply whole_min_10; assumption).
      assert (Hwn : whole (clock w + Qmin 10 (timeout - (clock w - start)))
                    = true) by (apply whole_plus; assumption).
      assert (Hin' : within_timeout timeout
                (clock w + Qmin 10 (timeout - (clock w - start)) - start)).
      { unfold within_timeout.
        destruct (Qmin_10_cases (timeout - (clock w - start)))
          as [[H1 H2]|[H1 H2]]; split; lra. }
      assert (E7 : Binary64.add (float_of (clock w))
                     (float_of (Qmin 10 (timeout - (clock w - start)))) =
                   float_of
                     (clock w + Qmin 10 (timeout - (clock w - start)))).
      { destruct Hin' as [Hi0 Hi1].
        apply (float_add R HR); try assumption; split;
          destruct (Qmin_10_cases (timeout - (clock w - start)))
            as [[H1 H2]|[H1 H2]]; lra. }
      rewrite E7.
      destruct (log_progress && Qgeb (clock w - start - last_check) 30).
      * specialize (IH start (clock w - start)
                      {| clock := clock w
                             + Qmin 10 (timeout - (clock w - start));
                         fetches := S (fetches w) |}
                      Hws (conj Hs0 Hs1) Hwn Hwe Hin' (conj Hin0 Hin1)).
        cbv zeta in IH. unfold world64 in IH. cbn [clock fetches] in IH.
        destruct (wait_loop svc task_id timeout log_progress n start _ _)
          as [[res1 w1] log1].
        destruct (Binary64.wait_loop svc64 task_id _ log_progress n _ _ _)
          as [[res2 w2] log2].
        cbn [fst snd] in IH |- *. destruct IH as (IH1 & IH2 & IH3).
        split; [exact IH1|]. split; [exact IH2|].
        repeat (constructor; simpl; auto).
      * specialize (IH start last_check
                      {| clock := clock w
                             + Qmin 10 (timeout - (clock w - start));
                         fetches := S (fetches w) |}
                      Hws (conj Hs0 Hs1) Hwn Hwl Hin' (conj Hl0 Hl1)).
        cbv zeta in IH. unfold world64 in IH. cbn [clock fetches] in IH.
        destruct (wait_loop svc task_id timeout log_progress n start _ _)
          as [[res1 w1] log1].
        destruct (Binary64.wait_loop svc64 task_id _ log_progress n _ _ _)
          as [[res2 w2] log2].
        cbn [fst snd] in IH |- *. destruct IH as (IH1 & IH2 & IH3).
        split; [exact IH1|]. split; [exact IH2|].
        repeat (constructor; simpl; auto).
    + destruct (log_progress && Qgeb (clock w - start - last_check) 30);
        simpl; (split; [split; [exact Hwe | reflexivity]|]);
        (split; [exact Hpolled|]); repeat (constructor; simpl; auto).
Qed.

(** The wait computed in binary64 is the wait computed exactly: same
    result, same final state, same events. *)
Lemma wait_for_task_agrees fuel w :
  whole (clock w) = true -> - R <= clock w /\ clock w <= R ->
  let r := wait_for_task svc task_id timeout log_progress fuel w in
  let r64 := Binary64.wait_for_task svc64 task_id (float_of timeout)
               log_progress fuel (world64 w) in
  r64.1.1 = r.1.1 /\ same_world r.1.2 r64.1.2 /\
  Forall2 same_event r.2 r64.2.
Proof.
  intros Hwc Hc. cbv zeta.
  assert (Hin : within_timeout timeout (clock w - clock w)).
  { pose proof (Q.le_max_l 0 timeout). split; lra. }
  assert (Hin0 : within_timeout timeout 0).
  { pose proof (Q.le_max_l 0 timeout). split; lra. }
  pose proof (wait_loop_agrees fuel (clock w) 0 w Hwc Hc Hwc eq_refl
                Hin Hin0) as H.
  cbv zeta in H.
  rewrite wait_for_task_unfold. unfold Binary64.wait_for_task.
  cbn [Binary64.clock world64].
  change (Binary64.of_int 0) with (float_of 0).
  unfold world64 in H.
  destruct (wait_loop svc task_id timeout log_progress fuel (clock w) 0 w)
    as [[res1 w1] log1].
  destruct (Binary64.wait_loop svc64 task_id _ log_progress fuel _ _ _)
    as [[res2 w2] log2].
  cbn [fst snd] in H. destruct H as (H1 & H2 & H3).
  destruct res1 as [[|e1]|x1|], res2 as [[|e2]|x2|]; simpl in H1;
    try contradiction; cbn [fst snd].
  - auto.
  - destruct H1 as [Hwe ->]. split; [reflexivity|]. split; [exact H2|].
    apply Forall2_app; [exact H3|]. repeat (constructor; simpl; auto).
  - subst x2. auto.
  - auto.
Qed.

End Runs.

(** In whole seconds the two waits are the same. *)
Lemma whole_seconds_alike svc svc64 task_id timeout log_progress fuel w :
  whole_seconds (clock w) timeout -> same_service svc svc64 ->
  computed_alike svc svc64 task_id timeout log_progress fuel w.
Proof.
  intros Hwhole Hsvc.
  apply whole_seconds_spec in Hwhole as [[Hwc Hrc] [Hwt Hrt]].
  apply within_pow2_spec in Hrc, Hrt.
  apply (wait_for_task_agrees svc svc64 task_id timeout log_progress
           (inject_Z (2 ^ 51)) eq_refl Hsvc Hwt Hrt fuel w Hwc Hrc).
Qed.

(** A service that looks at the time alone, comparing it with a whole
    number of seconds, is the same on rationals and on floats. *)
Lemma float_at_least (c : Z) x :
  (- 2 ^ 53 < c < 2 ^ 53)%Z ->
  whole x = true -> within_pow2 52 x = true ->
  Binary64.leb (Binary64.of_int c) (float_of x) = Qle_bool (inject_Z c) x.
Proof.
  intros Hc Hw Hx. apply within_pow2_spec in Hx.
  assert (E : inject_Z (2 ^ 52) == 2 * inject_Z (2 ^ 51)) by reflexivity.
  rewrite E in Hx.
  rewrite (float_of_eq _ eq_refl x Hx), (of_int_whole c Hc).
  rewrite leb_whole by (try apply (floor_range _ eq_refl); assumption).
  apply whole_floor in Hw.
  destruct (Qle_bool (inject_Z c) x) eqn:Hg.
  - apply Qle_bool_iff in Hg. apply Z.leb_le.
    rewrite Hw in Hg. rewrite Zle_Qle. exact Hg.
  - apply not_true_iff_false in Hg. apply Z.leb_gt.
    apply Z.nle_gt. intros Hle. apply Hg, Qle_bool_iff.
    rewrite Hw. rewrite <- Zle_Qle. exact Hle.
Qed.

End Agreement.

Module WaiterSpec.
Import Waiter WaiterAux WaiterFacts Binary64Aux.
Local Open Scope Q_scope.

(** ** C1: a wait ends, and when *)


(** C1, as stated, fails for another reason where the arithmetic of the
    source rounds.  Computed in binary64, with the clock moved only by the
    sleeps, the wait for a task that keeps running, with a timeout of 0.1
    seconds and begun when the clock shows 0.7, never ends: after the first
    sleep 2^-55 seconds remain, and sleeping them does not move the
    clock. *)
Lemma wait_rounding_counterexample :
  forall fuel : nat,
    (Binary64.wait_for_task Binary64Aux.keeps_running "t1"
       Binary64Aux.tenth true fuel
       {| Binary64.clock := Binary64Aux.seven_tenths;
          Binary64.fetches := 0 |}).1.1 = OutOfFuel.
Proof. intros fuel. apply Binary64Facts.wait_never_ends. Qed.



(** ** C2: a timeout that is zero or negative *)

(** C2. With a timeout of zero or less, a single-task wait makes exactly
    one status fetch and never sleeps; when the state fetched is not
    terminal, all it prints is the timeout report, with an elapsed time of
    zero. *)
Theorem zero_timeout_one_fetch (svc : Service) (task_id : string)
    (timeout : Q) (log_progress : bool) (fuel : nat) (w : World) :
  timeout <= 0 ->
  (polls_bound timeout <= fuel)%nat ->
  let r := svc (fetches w) (clock w) (OneId task_id) in
  exists res lines,
    wait_for_task svc task_id timeout log_progress fuel w =
      (res, polled w, Fetch (OneId task_id) r :: lines) /\
    filter is_fetch lines = [] /\
    filter is_sleep lines = [] /\
    (forall s rest,
        r = inr (s :: rest) -> finished (state s) = false ->
        res = Ok tt /\
        exists e, e == 0 /\ lines = [Print (TimedOut task_id e)]).
Proof.
  intros Htimeout Hfuel r. subst r.
  destruct fuel as [|n]; [unfold polls_bound in Hfuel; lia|].
  rewrite wait_for_task_unfold, wait_loop_unfold. cbv zeta.
  assert (Hgt : Qgtb (timeout - (clock w - clock w)) 0 = false)
    by (apply Qgtb_false; lra).
  assert (Hdue : progress_due log_progress (clock w - clock w) 0 = false).
  { unfold progress_due. apply andb_false_iff. right.
    apply not_true_iff_false. rewrite Qgeb_true. intros H. lra. }
  destruct (svc (fetches w) (clock w) (OneId task_id)) as [e|[|s l]].
  - exists (Raise e), [].
    do 3 (split; [reflexivity|]). intros s rest Hr. discriminate Hr.
  - exists (Raise IndexError), [].
    do 3 (split; [reflexivity|]). intros s rest Hr. discriminate Hr.
  - destruct (finished (state s)) eqn:Hfin.
    + exists (Ok tt), (ending_lines task_id s (clock w - clock w)).
      split; [reflexivity|]. unfold ending_lines.
      destruct (message_truthy (error_message s));
        do 2 (split; [reflexivity|]);
        intros s' rest' [= <- <-] Hf; congruence.
    + rewrite Hgt. unfold progress_lines. rewrite Hdue.
      exists (Ok tt), [Print (TimedOut task_id (clock w - clock w))].
      do 3 (split; [reflexivity|]). intros s' rest' _ _.
      split; [reflexivity|].
      eexists. split; [|reflexivity]. lra.
Qed.

(** A running task waited for zero seconds. *)
Lemma zero_timeout_one_fetch_witness :
  exists res lines,
    wait_for_task always_running "t1" 0 true 1 world0 =
      (res, polled world0, Fetch (OneId "t1") (inr [RUNNING]) :: lines) /\
    filter is_fetch lines = [] /\
    filter is_sleep lines = [] /\
    (forall s rest,
        @inr Exn _ [RUNNING] = inr (s :: rest) ->
        finished (state s) = false ->
        res = Ok tt /\
        exists e, e == 0 /\ lines = [Print (TimedOut "t1" e)]).
Proof.
  apply (zero_timeout_one_fetch always_running "t1" 0 true 1 world0).
  - vm_compute. intros H; discriminate H.
  - vm_compute. lia.
Defined.

(** ** C3: the two ways a wait ends *)



(** ** C4: progress lines *)

(** C4, as stated, fails on a poll that fetches a terminal state: the
    task below is polled at 0, 10, 20 and 30 seconds; at the fourth poll
    30 seconds have elapsed and no progress line was printed before, yet
    the wait prints the completion report and no progress line. *)
Lemma progress_terminal_poll_counterexample :
  let log :=
    [Fetch (OneId "t1") (inr [RUNNING]); Sleep 10;
     Fetch (OneId "t1") (inr [RUNNING]); Sleep 10;
     Fetch (OneId "t1") (inr [RUNNING]); Sleep 10;
     Fetch (OneId "t1") (inr [DONE]);
     Print (TaskEnded "t1" "COMPLETED" 30)] in
  wait_for_task done_at_fourth_poll "t1" 100 true (polls_bound 100) world0 =
    (Ok tt, {| clock := 30; fetches := 4 |}, log) /\
  progress_stamps log = [] /\
  ~ progress_rule every_poll "t1" true 0 0 0 None log.
Proof.
  intros log. split; [vm_compute; reflexivity|]. split; [reflexivity|].
  intros H. vm_compute in H.
  repeat match goal with H : _ /\ _ |- _ => destruct H end.
  discriminate.
Qed.

(** C4 (amended). In a single-task wait, the polls that fetch a state
    that is not terminal are followed by a progress line (current time,
    task, state) exactly when progress logging is enabled and at least 30
    seconds have elapsed since the last progress line, or since the start
    when there is none; printing the line resets that clock.  No progress
    line is printed anywhere else, so consecutive progress lines are at
    least 30 seconds apart, the first one at least 30 seconds after the
    start, and with progress logging disabled there is none. *)
Theorem progress_cadence (svc : Service) (task_id : string) (timeout : Q)
    (log_progress : bool) (fuel : nat) (w : World) :
  let log := (wait_for_task svc task_id timeout log_progress fuel w).2 in
  progress_rule nonterminal task_id log_progress (clock w) (clock w) 0
    None log /\
  spaced (clock w) (progress_stamps log) /\
  (log_progress = false -> progress_stamps log = []).
Proof.
  intros log.
  assert (Hrule : progress_rule nonterminal task_id log_progress (clock w)
                    (clock w) 0 None log).
  { subst log. rewrite wait_for_task_unfold.
    destruct (Waiter.wait_loop svc task_id timeout log_progress fuel
                (clock w) 0 w) as [[r w'] lg] eqn:Hloop.
    pose proof (wait_loop_progress_rule _ _ _ _ _ _ _ _ _ _ _ Hloop) as H.
    destruct r as [[|e]|e|]; simpl; try exact H.
    apply progress_rule_snoc_timeout. exact H. }
  split; [exact Hrule|]. split.
  - apply (progress_rule_spaced _ _ _ _ _ _ _ _ _ Hrule); [lra|].
    discriminate.
  - intros Hlp. rewrite Hlp in Hrule.
    apply (progress_rule_disabled _ _ _ _ _ _ Hrule).
Qed.

(** ** C6: a list of one task *)

(** C6. Given a list of exactly one task, [wait_for_tasks] does what
    [wait_for_task] does for that task with the same timeout and progress
    flag: same result, same final state, same events.  No bulk fetch is
    made, no summary is printed and no worker thread is run. *)
Theorem single_task_delegates (remote : Remote) (timeout : Q)
    (log_progress : bool) (fuel : nat) (task_id : string) (w : World) :
  wait_for_tasks remote timeout log_progress fuel [task_id] w =
    wait_for_task (main_thread remote) task_id timeout log_progress fuel w
  /\
  Forall single_task_event
    (wait_for_tasks remote timeout log_progress fuel [task_id] w).2.
Proof.
  assert (Heq : wait_for_tasks remote timeout log_progress fuel [task_id] w
                = wait_for_task (main_thread remote) task_id timeout
                    log_progress fuel w).
  { unfold wait_for_tasks. simpl. unfold bind, ret.
    destruct (wait_for_task _ _ _ _ _ w) as [[r w'] lg]. reflexivity. }
  split; [exact Heq|]. rewrite Heq, wait_for_task_unfold.
  destruct (Waiter.wait_loop (main_thread remote) task_id timeout
              log_progress fuel (clock w) 0 w) as [[r w'] lg] eqn:Hloop.
  pose proof (wait_loop_single_task_events _ _ _ _ _ _ _ _ _ _ _ Hloop)
    as H.
  destruct r as [[|e]|e|]; simpl; try exact H.
  apply Forall_app. split; [exact H|]. repeat constructor.
Qed.

End WaiterSpec.

Module MultiFacts.
Import Waiter WaiterAux WaiterFacts.
Local Open Scope Q_scope.

(** ** The tally *)

Lemma state_class st :
  ((st = "COMPLETED" \/ st = "FAILED" \/ st = "CANCELLED") /\
   finished st = true) \/
  (st ≠ "COMPLETED" /\ st ≠ "FAILED" /\ st ≠ "CANCELLED" /\
   finished st = false).
Proof.
  unfold finished, TASK_FINISHED_STATES, COMPLETED, FAILED, CANCELLED.
  case_bool_decide as H.
  - left. split; [|reflexivity].
    rewrite !elem_of_cons, elem_of_nil in H. tauto.
  - right. rewrite !elem_of_cons, elem_of_nil in H. tauto.
Qed.

Lemma tally_fold status_list : forall (m : gmap string Z) st,
  count_of
    (foldl (fun status_counts status =>
              <[state status :=
                  (count_of status_counts (state status) + 1)%Z]>
                status_counts) m status_list) st
  = (count_of m st + count_state st status_list)%Z.
Proof.
  induction status_list as [|s sl IH]; intros m st; simpl.
  - unfold count_state. simpl. lia.
  - rewrite IH. unfold count_state. rewrite filter_cons.
    unfold count_of at 1.
    destruct (decide (state s = st)) as [<-|Hne].
    + rewrite lookup_insert_eq. simpl.
      fold (count_of m (state s)). lia.
    + rewrite lookup_insert_ne by exact Hne.
      fold (count_of m st). lia.
Qed.

Lemma tally_count status_list st :
  count_of (tally status_list) st = count_state st status_list.
Proof.
  unfold tally. rewrite tally_fold. unfold count_of.
  rewrite lookup_empty. simpl. lia.
Qed.

Lemma count_partition status_list :
  (Z.of_nat (length status_list)
   - count_state "COMPLETED" status_list
   - count_state "FAILED" status_list
   - count_state "CANCELLED" status_list
   = count_unfinished status_list)%Z.
Proof.
  unfold count_state, count_unfinished.
  induction status_list as [|s sl IH]; [reflexivity|].
  rewrite !filter_cons.
  destruct (state_class (state s))
    as [[[H|[H|H]] Hf] | (H1 & H2 & H3 & Hf)];
    repeat case_decide; try congruence; simpl length; lia.
Qed.

Lemma count_state_unfinished st status_list :
  Forall (fun s => finished (state s) = false) status_list ->
  finished st = true ->
  count_state st status_list = 0%Z.
Proof.
  intros Hall Hst. unfold count_state.
  induction Hall as [|s sl Hs Hall IH]; [reflexivity|].
  rewrite filter_cons. case_decide; [congruence | exact IH].
Qed.

(** ** Threads *)

Section Threads.
Variable remote : Remote.
Variables (timeout : Q) (log_progress : bool) (fuel : nat).

Lemma start_all_threads task_id_list : forall i w,
  start_all remote timeout log_progress fuel i task_id_list w =
    (Ok (threads_of remote timeout log_progress fuel (clock w) i
           task_id_list), w, []).
Proof.
  induction task_id_list as [|task_id rest IH]; intros i w; simpl.
  - reflexivity.
  - unfold bind at 1. unfold thread_start at 1.
    destruct (wait_for_task (worker_thread remote i) task_id timeout
                log_progress fuel {| clock := clock w; fetches := 0 |})
      as [[r w'] lg].
    unfold bind. rewrite IH. reflexivity.
Qed.

Lemma threads_of_tasks t0 task_id_list : forall i,
  map th_task
    (threads_of remote timeout log_progress fuel t0 i task_id_list)
  = task_id_list.
Proof.
  induction task_id_list as [|task_id rest IH]; intros i; simpl.
  - reflexivity.
  - destruct (wait_for_task (worker_thread remote i) task_id timeout
                log_progress fuel {| clock := t0; fetches := 0 |})
      as [[r w'] lg].
    simpl. rewrite IH. reflexivity.
Qed.

Lemma threads_of_end t0 task_id_list : forall i,
  (polls_bound timeout <= fuel)%nat ->
  Forall (fun t => th_result t ≠ OutOfFuel)
    (threads_of remote timeout log_progress fuel t0 i task_id_list).
Proof.
  induction task_id_list as [|task_id rest IH]; intros i Hfuel; simpl.
  - constructor.
  - pose proof (wait_for_task_fuel (worker_thread remote i) task_id
                  timeout log_progress fuel
                  {| clock := t0; fetches := 0 |} Hfuel) as Hres.
    destruct (wait_for_task (worker_thread remote i) task_id timeout
                log_progress fuel {| clock := t0; fetches := 0 |})
      as [[r w'] lg].
    constructor; [exact Hres | apply IH; exact Hfuel].
Qed.

Lemma join_all_threads threads : forall w,
  Forall (fun t => th_result t ≠ OutOfFuel) threads ->
  join_all threads w =
    (Ok tt,
     {| clock := joined_clock (clock w) threads; fetches := fetches w |},
     map worker_event threads).
Proof.
  induction threads as [|t rest IH]; intros w Hall; simpl.
  - destruct w; reflexivity.
  - apply Forall_cons in Hall as [Ht Hrest].
    unfold bind, thread_join, worker_event.
    destruct (th_result t) as [[]|e|] eqn:Hr; [| |contradiction];
      rewrite (IH _ Hrest); reflexivity.
Qed.

Lemma summarize_run task_id_list w :
  summarize remote task_id_list w =
    let r := main_thread remote (fetches w) (clock w)
               (IdList task_id_list) in
    match r with
    | inl e => (Raise e, polled w, [Fetch (IdList task_id_list) r])
    | inr status_list =>
        let c := count_of (tally status_list) "COMPLETED" in
        let f := count_of (tally status_list) "FAILED" in
        let x := count_of (tally status_list) "CANCELLED" in
        (Ok tt, polled w,
         [Fetch (IdList task_id_list) r; Print SummaryHeader;
          Print (TasksCompleted c); Print (TasksFailed f);
          Print (TasksCancelled x);
          Print (TasksIncomplete
                   (Z.of_nat (length status_list) - c - f - x)%Z)])
    end.
Proof.
  unfold summarize, bind, getTaskStatus. cbv zeta.
  destruct (main_thread remote (fetches w) (clock w)
              (IdList task_id_list)); reflexivity.
Qed.

End Threads.

End MultiFacts.

Module MultiSpec.
Import Waiter WaiterAux WaiterFacts MultiFacts.
Local Open Scope Q_scope.

(** ** C5: the bulk fetch and the summary *)

(** C5. Given a list of tasks that is not a single task, [wait_for_tasks]
    runs one worker per task, in order, and joins them all; every worker
    has ended by then.  After the joins it makes one status fetch, for the
    whole list.  When that fetch succeeds it prints the summary: the
    header and four lines giving the numbers of statuses in state
    COMPLETED, FAILED and CANCELLED and, as the number of incomplete
    tasks, the number of statuses minus those three.  That last number is
    the number of statuses in no terminal state; when the fetch returns
    one status per task and none is terminal, the summary reports 0, 0, 0
    and the number of tasks. *)
Theorem bulk_fetch_and_summary (remote : Remote) (timeout : Q)
    (log_progress : bool) (fuel : nat) (task_id_list : list string)
    (w : World) :
  (polls_bound timeout <= fuel)%nat ->
  length task_id_list ≠ 1%nat ->
  exists threads,
    map th_task threads = task_id_list /\
    Forall (fun t => th_result t ≠ OutOfFuel) threads /\
    let w1 := {| clock := joined_clock (clock w) threads;
                 fetches := fetches w |} in
    let r := main_thread remote (fetches w1) (clock w1)
               (IdList task_id_list) in
    match r with
    | inl e =>
        wait_for_tasks remote timeout log_progress fuel task_id_list w =
          (Raise e, polled w1,
           map worker_event threads ++ [Fetch (IdList task_id_list) r])
    | inr status_list =>
        let c := count_state "COMPLETED" status_list in
        let f := count_state "FAILED" status_list in
        let x := count_state "CANCELLED" status_list in
        let total := Z.of_nat (length status_list) in
        wait_for_tasks remote timeout log_progress fuel task_id_list w =
          (Ok tt, polled w1,
           map worker_event threads ++
           [Fetch (IdList task_id_list) r; Print SummaryHeader;
            Print (TasksCompleted c); Print (TasksFailed f);
            Print (TasksCancelled x);
            Print (TasksIncomplete (total - c - f - x)%Z)]) /\
        (total - c - f - x)%Z = count_unfinished status_list /\
        (Forall (fun s => finished (state s) = false) status_list ->
         length status_list = length task_id_list ->
         c = 0%Z /\ f = 0%Z /\ x = 0%Z /\
         (total - c - f - x)%Z = Z.of_nat (length task_id_list))
    end.
Proof.
  intros Hfuel Hlen.
  exists (threads_of remote timeout log_progress fuel (clock w) 0
            task_id_list).
  split; [apply threads_of_tasks|].
  pose proof (threads_of_end remote timeout log_progress fuel (clock w)
                task_id_list 0%nat Hfuel) as Hend.
  split; [exact Hend|].
  set (threads := threads_of remote timeout log_progress fuel (clock w) 0
                    task_id_list) in *.
  assert (Hrun :
    wait_for_tasks remote timeout log_progress fuel task_id_list w =
      let '(r, w2, lg) :=
        summarize remote task_id_list
          {| clock := joined_clock (clock w) threads;
             fetches := fetches w |} in
      (r, w2, map worker_event threads ++ lg)).
  { unfold wait_for_tasks.
    destruct (Nat.eqb_spec (length task_id_list) 1) as [Heq|_];
      [contradiction|].
    unfold bind at 1. rewrite start_all_threads. fold threads.
    unfold bind at 1. rewrite (join_all_threads _ _ Hend).
    destruct (summarize remote task_id_list _) as [[r w2] lg].
    reflexivity. }
  rewrite Hrun, summarize_run. cbv zeta. simpl clock. simpl fetches.
  destruct (main_thread remote (fetches w) _ (IdList task_id_list))
    as [e|status_list].
  - reflexivity.
  - rewrite !tally_count. split; [reflexivity|].
    split; [apply count_partition|].
    intros Hall Hsame.
    rewrite !(count_state_unfinished _ _ Hall) by reflexivity.
    rewrite Hsame. repeat split; lia.
Qed.

(** Spec scenario: tasks a, b, c stuck in RUNNING, timeout 5: the summary
    reports 0 completed, 0 failed, 0 cancelled and 3 incomplete. *)
Lemma bulk_fetch_and_summary_witness :
  exists workers w',
    wait_for_tasks stuck_remote 5 false 2 ["a"; "b"; "c"] world0 =
      (Ok tt, w',
       workers ++
       [Fetch (IdList ["a"; "b"; "c"]) (inr [RUNNING; RUNNING; RUNNING]);
        Print SummaryHeader; Print (TasksCompleted 0);
        Print (TasksFailed 0); Print (TasksCancelled 0);
        Print (TasksIncomplete 3)]) /\
    length workers = 3%nat.
Proof.
  destruct (bulk_fetch_and_summary stuck_remote 5 false 2 ["a"; "b"; "c"]
              world0) as (threads & Htasks & _ & Hrun).
  - vm_compute. lia.
  - simpl. lia.
  - cbv zeta in Hrun. simpl main_thread in Hrun. simpl map in Hrun.
    destruct Hrun as (Hrun & _ & Hzero).
    destruct Hzero as (Hc & Hf & Hx & Hi);
      [repeat constructor | reflexivity |].
    eexists _, _. split.
    + rewrite Hrun. rewrite Hi. rewrite Hc, Hf, Hx. reflexivity.
    + rewrite length_map. rewrite <- (length_map th_task), Htasks.
      reflexivity.
Defined.

End MultiSpec.

(* ===================================================================== *)
(** * Properties of the console helpers                                   *)
(* ===================================================================== *)

Module ConsoleFacts.
Import Console ConsoleAux.

Lemma length_append (s t : string) :
  String.length (String.append s t) = (String.length s + String.length t)%nat.
Proof.
  induction s as [|c s IH]; simpl; [reflexivity | rewrite IH; reflexivity].
Qed.

Lemma length_prefix (s : string) : forall n,
  String.length (String.substring 0 n s) = Nat.min n (String.length s).
Proof.
  induction s as [|c s IH]; intros [|n]; simpl; try reflexivity.
  rewrite IH. reflexivity.
Qed.

Lemma prefix_all (s : string) : forall n,
  (String.length s <= n)%nat -> String.substring 0 n s = s.
Proof.
  induction s as [|c s IH]; intros [|n] H; simpl in *; try reflexivity;
    try lia.
  rewrite IH by lia. reflexivity.
Qed.

Lemma prefix_append (s t : string) : forall n,
  (n <= String.length s)%nat ->
  String.substring 0 n (String.append s t) = String.substring 0 n s.
Proof.
  induction s as [|c s IH]; intros [|n] H; simpl in *; try reflexivity.
  - destruct t; reflexivity.
  - lia.
  - rewrite IH by lia. reflexivity.
Qed.

Lemma prefix_prefix (s : string) : forall n,
  String.substring 0 n (String.substring 0 n s) = String.substring 0 n s.
Proof.
  induction s as [|c s IH]; intros [|n]; simpl; try reflexivity.
  rewrite IH. reflexivity.
Qed.

Lemma lower_char_y c :
  lower_char c = "y"%char <-> c = "y"%char \/ c = "Y"%char.
Proof.
  destruct c as [[] [] [] [] [] [] [] []]; vm_compute;
    split; intros H; try discriminate H;
    try (destruct H as [H|H]; discriminate H); auto.
Qed.

Lemma lower_char_n c :
  lower_char c = "n"%char <-> c = "n"%char \/ c = "N"%char.
Proof.
  destruct c as [[] [] [] [] [] [] [] []]; vm_compute;
    split; intros H; try discriminate H;
    try (destruct H as [H|H]; discriminate H); auto.
Qed.

Lemma lower_y line : lower line = "y" <-> says_yes line.
Proof.
  unfold says_yes. destruct line as [|c [|c' rest]]; simpl.
  - split; [discriminate | intros [H|H]; discriminate H].
  - split.
    + intros [= H]. apply lower_char_y in H as [->| ->]; auto.
    + intros [[= ->]|[= ->]]; reflexivity.
  - split; [discriminate | intros [H|H]; discriminate H].
Qed.

Lemma lower_n line : lower line = "n" <-> says_no line.
Proof.
  unfold says_no. destruct line as [|c [|c' rest]]; simpl.
  - split; [discriminate | intros [H|H]; discriminate H].
  - split.
    + intros [= H]. apply lower_char_n in H as [->| ->]; auto.
    + intros [[= ->]|[= ->]]; reflexivity.
  - split; [discriminate | intros [H|H]; discriminate H].
Qed.

Lemma length_truncate (s : string) (n : Z) :
  (0 <= n)%Z ->
  Z.of_nat (String.length (truncate s n)) =
    if (Z.of_nat (String.length s) >? n)%Z then (n + 2)%Z
    else Z.of_nat (String.length s).
Proof.
  intros Hn. unfold truncate.
  destruct (Z.of_nat (String.length s) >? n)%Z eqn:Hgt; [|reflexivity].
  apply Z.gtb_lt in Hgt.
  rewrite length_append. unfold slice_to.
  destruct (n <? 0)%Z eqn:Hneg; [apply Z.ltb_lt in Hneg; lia|].
  rewrite length_prefix. simpl. lia.
Qed.

End ConsoleFacts.

Module ConsoleSpec.
Import Console ConsoleAux ConsoleFacts.

(** X1. For a length that is not negative, [truncate] returns a string of
    at most [length] characters unchanged, and turns a longer one into its
    first [length] characters followed by two dots, a string of exactly
    [length + 2] characters; a string of [length + 1] characters therefore
    comes back one character longer than it was. *)
Theorem truncate_length (s : string) (n : Z) :
  (0 <= n)%Z ->
  ((Z.of_nat (String.length s) <= n)%Z -> truncate s n = s) /\
  ((n < Z.of_nat (String.length s))%Z ->
   truncate s n = String.append (String.substring 0 (Z.to_nat n) s) ".." /\
   Z.of_nat (String.length (truncate s n)) = (n + 2)%Z).
Proof.
  intros Hn. split.
  - intros Hle. unfold truncate.
    destruct (Z.of_nat (String.length s) >? n)%Z eqn:Hgt; [|reflexivity].
    apply Z.gtb_lt in Hgt. lia.
  - intros Hlt. split.
    + unfold truncate.
      destruct (Z.of_nat (String.length s) >? n)%Z eqn:Hgt.
      * unfold slice_to.
        destruct (n <? 0)%Z eqn:Hneg; [apply Z.ltb_lt in Hneg; lia|].
        rewrite Z.min_l by lia. reflexivity.
      * rewrite Z.gtb_ltb in Hgt. apply Z.ltb_ge in Hgt. lia.
    + rewrite (length_truncate s n Hn).
      destruct (Z.of_nat (String.length s) >? n)%Z eqn:Hgt; [reflexivity|].
      rewrite Z.gtb_ltb in Hgt. apply Z.ltb_ge in Hgt. lia.
Qed.

Lemma truncate_length_witness :
  truncate "abc" 3 = "abc" /\
  truncate "abcd" 3 = "abc.." /\
  Z.of_nat (String.length (truncate "abcd" 3)) = 5%Z.
Proof.
  split.
  - apply (truncate_length "abc" 3); simpl; lia.
  - apply (truncate_length "abcd" 3); simpl; lia.
Defined.

(** X2. For a length that is not negative, truncating twice is truncating
    once, although the first result may be longer than [length]: the two
    dots that were added are cut and added again. *)
Theorem truncate_idempotent (s : string) (n : Z) :
  (0 <= n)%Z ->
  truncate (truncate s n) n = truncate s n.
Proof.
  intros Hn.
  pose proof (length_truncate s n Hn) as Hlen.
  unfold truncate at 1.
  destruct (Z.of_nat (String.length (truncate s n)) >? n)%Z eqn:Hgt2;
    [|reflexivity].
  unfold truncate in *.
  destruct (Z.of_nat (String.length s) >? n)%Z eqn:Hgt.
  - apply Z.gtb_lt in Hgt. f_equal. unfold slice_to.
    destruct (n <? 0)%Z eqn:Hneg; [apply Z.ltb_lt in Hneg; lia|].
    rewrite length_append, length_prefix. simpl.
    replace (Z.to_nat (Z.min n (Z.of_nat
               (Nat.min (Z.to_nat (Z.min n (Z.of_nat (String.length s))))
                  (String.length s) + 2))))
      with (Z.to_nat n) by lia.
    replace (Z.to_nat (Z.min n (Z.of_nat (String.length s))))
      with (Z.to_nat n) by lia.
    rewrite prefix_append by (rewrite length_prefix; lia).
    apply prefix_prefix.
  - apply Z.gtb_lt in Hgt2. rewrite Z.gtb_ltb in Hgt.
    apply Z.ltb_ge in Hgt. lia.
Qed.

Lemma truncate_idempotent_witness :
  truncate (truncate "abcd" 3) 3 = truncate "abcd" 3.
Proof. apply (truncate_idempotent "abcd" 3). lia. Defined.

(** X3. With a negative length [truncate] never takes the unchanged
    branch: it drops the last [-length] characters (all of them when the
    string is shorter) and appends two dots, so the result has
    [max(0, len + length) + 2] characters. *)
Theorem truncate_negative (s : string) (n : Z) :
  (n < 0)%Z ->
  truncate s n =
    String.append
      (String.substring 0 (String.length s - Z.to_nat (- n)) s) ".." /\
  Z.of_nat (String.length (truncate s n)) =
    (Z.max 0 (Z.of_nat (String.length s) + n) + 2)%Z.
Proof.
  intros Hn.
  assert (Heq : truncate s n =
    String.append
      (String.substring 0 (String.length s - Z.to_nat (- n)) s) "..").
  { unfold truncate, slice_to.
    destruct (Z.of_nat (String.length s) >? n)%Z eqn:Hgt.
    - destruct (n <? 0)%Z eqn:Hneg; [|apply Z.ltb_ge in Hneg; lia].
      do 2 f_equal. lia.
    - rewrite Z.gtb_ltb in Hgt. apply Z.ltb_ge in Hgt. lia. }
  split; [exact Heq|].
  rewrite Heq, length_append, length_prefix. simpl. lia.
Qed.

Lemma truncate_negative_witness :
  truncate "abc" (-1) = "ab.." /\
  Z.of_nat (String.length (truncate "abc" (-1))) = 4%Z.
Proof. apply (truncate_negative "abc" (-1)). lia. Defined.

(** The retry lines printed for [n] rejected inputs. *)
Lemma ask_rejected (bad : list string) : forall stdin,
  Forall (fun line => ~ answer line) bad ->
  ask (bad ++ stdin) =
    let '(r, unread, printed) := ask stdin in
    (r, unread, replicate (length bad) RETRY ++ printed).
Proof.
  induction bad as [|line bad IH]; intros stdin Hbad; simpl.
  - destruct (ask stdin) as [[r unread] printed]. reflexivity.
  - apply Forall_cons in Hbad as [Hline Hbad].
    destruct (String.eqb_spec (lower line) "y") as [Hy|_].
    { exfalso. apply Hline. left. apply lower_y. exact Hy. }
    destruct (String.eqb_spec (lower line) "n") as [Hn|_].
    { exfalso. apply Hline. right. apply lower_n. exact Hn. }
    rewrite (IH _ Hbad).
    destruct (ask stdin) as [[r unread] printed]. reflexivity.
Qed.

(** X4. [query_yes_no] is decided by the first input line that is one of
    "y", "Y", "n", "N": it returns [True] for the first two and [False] for
    the others, leaves the later lines unread, and has printed the prompt
    and one retry line per line rejected before.  Every other line, such as
    "yes", the empty line or " y", is rejected: the input is lower-cased but
    not stripped. *)
Theorem query_yes_no_first_answer (msg : string) (bad : list string)
    (line : string) (rest : list string) :
  Forall (fun l => ~ answer l) bad ->
  answer line ->
  exists b,
    query_yes_no msg (bad ++ line :: rest) =
      (Returns b, rest,
       String.append msg " (y/n)" :: replicate (length bad) RETRY) /\
    (b = true <-> says_yes line) /\
    ~ answer "yes" /\ ~ answer "" /\ ~ answer " y".
Proof.
  intros Hbad Hline.
  assert (Hno : ~ answer "yes" /\ ~ answer "" /\ ~ answer " y").
  { unfold answer, says_yes, says_no.
    repeat split; intros [[H|H]|[H|H]]; discriminate H. }
  unfold query_yes_no. rewrite (ask_rejected _ _ Hbad). simpl.
  destruct Hline as [Hy|Hn].
  - exists true. apply lower_y in Hy as Hl. rewrite Hl. simpl.
    rewrite app_nil_r. split; [reflexivity|]. split; [tauto | exact Hno].
  - exists false. apply lower_n in Hn as Hl. rewrite Hl. simpl.
    rewrite app_nil_r. split; [reflexivity|]. split; [|exact Hno].
    split; [discriminate|].
    intros Hy. destruct Hy as [->| ->]; destruct Hn as [H|H]; discriminate H.
Qed.

Lemma query_yes_no_first_answer_witness :
  exists b,
    query_yes_no "Delete?" (["maybe"; "yes"] ++ "N" :: ["y"]) =
      (Returns b, ["y"],
       String.append "Delete?" " (y/n)" :: replicate 2 RETRY) /\
    (b = true <-> says_yes "N") /\
    ~ answer "yes" /\ ~ answer "" /\ ~ answer " y".
Proof.
  apply (query_yes_no_first_answer "Delete?" ["maybe"; "yes"] "N" ["y"]).
  - repeat constructor; intros [[H|H]|[H|H]]; discriminate H.
  - right. right. reflexivity.
Defined.

(** X5. When no input line is an answer, [query_yes_no] never returns: it
    prints the prompt and one retry line per input line, consumes the whole
    input, and ends with the [EOFError] of [raw_input]. *)
Theorem query_yes_no_exhausted (msg : string) (stdin : list string) :
  Forall (fun l => ~ answer l) stdin ->
  query_yes_no msg stdin =
    (EOFError, [],
     String.append msg " (y/n)" :: replicate (length stdin) RETRY).
Proof.
  intros Hbad. unfold query_yes_no.
  rewrite <- (app_nil_r stdin) at 1. rewrite (ask_rejected _ _ Hbad).
  simpl. rewrite app_nil_r. reflexivity.
Qed.

Lemma query_yes_no_exhausted_witness :
  query_yes_no "Delete?" ["ok"; ""] =
    (EOFError, [], String.append "Delete?" " (y/n)" :: replicate 2 RETRY).
Proof.
  apply (query_yes_no_exhausted "Delete?" ["ok"; ""]).
  repeat constructor; intros [[H|H]|[H|H]]; discriminate H.
Defined.

End ConsoleSpec.

(* ===================================================================== *)
(** * Further properties of the configuration store                       *)
(* ===================================================================== *)

Module ConfigMore.
Import Config ConfigAux ConfigFacts.

Lemma getattr_deterministic_params self key :
  key ∈ param_names -> exists v, getattr self key = Ok v.
Proof.
  unfold param_names; simpl. rewrite !elem_of_cons, elem_of_nil.
  intros [->|[->|[->|[->|[]]]]]; eexists; reflexivity.
Qed.

(** The dict collected from any list of parameter names. *)
Lemma collect_params_lookup self keys : forall m,
  Forall (fun key => key ∈ param_names) keys ->
  exists m',
    collect_params self keys m = Ok m' /\
    forall k, m' !! k =
      match getattr self k with
      | Ok v => if decide (k ∈ keys) then
                  (if is_not_None v then Some v else m !! k)
                else m !! k
      | _ => m !! k
      end.
Proof.
  induction keys as [|key rest IH]; intros m Hkeys; simpl.
  - exists m. split; [reflexivity|]. intros k.
    destruct (getattr self k); reflexivity.
  - apply Forall_cons in Hkeys as [Hkey Hrest].
    destruct (getattr_deterministic_params self key Hkey) as [v Hv].
    rewrite Hv. simpl.
    destruct (IH (if is_not_None v then <[key:=v]> m else m) Hrest)
      as (m' & Hrun & Hlook).
    exists m'. split; [exact Hrun|]. intros k. rewrite Hlook.
    destruct (getattr self k) as [vk| |] eqn:Hk.
    + destruct (decide (k = key)) as [->|Hne].
      * rewrite Hv in Hk. injection Hk as <-.
        rewrite (decide_True (P := key ∈ key :: rest))
          by apply list_elem_of_here.
        destruct (is_not_None v) eqn:Hnn.
        -- rewrite lookup_insert_eq. case_decide; reflexivity.
        -- case_decide; reflexivity.
      * assert (Hm : (if is_not_None v then <[key:=v]> m else m) !! k
                     = m !! k).
        { destruct (is_not_None v); [apply lookup_insert_ne; congruence|
                                      reflexivity]. }
        rewrite Hm.
        destruct (decide (k ∈ rest)) as [Hin|Hnin].
        -- rewrite decide_True by (apply list_elem_of_further; exact Hin).
           reflexivity.
        -- rewrite decide_False; [reflexivity|].
           rewrite elem_of_cons. tauto.
    + destruct (decide (k = key)) as [->|Hne]; [congruence|].
      destruct (is_not_None v); [apply lookup_insert_ne; congruence|
                                  reflexivity].
    + destruct (decide (k = key)) as [->|Hne]; [congruence|].
      destruct (is_not_None v); [apply lookup_insert_ne; congruence|
                                  reflexivity].
Qed.

(** The configuration read back from the dict saved for [self]: [self]
    itself, except that a [url] that is [None] becomes the default. *)
Lemma reload_saved self :
  loaded (config_file self) (saved_dict self) =
    {| config_file := config_file self;
       url := if is_not_None (url self) then url self
              else JStr PRODUCTION_URL;
       account := account self;
       private_key := private_key self;
       refresh_token := refresh_token self |}.
Proof.
  unfold loaded, saved_dict. rewrite !lookup_put, lookup_empty.
  repeat (case_decide; try congruence).
  destruct self as [cf u a p r]; simpl.
  destruct u, a, p, r; reflexivity.
Qed.

Lemma save_inv self os os' :
  save self os = Ok os' ->
  writable os (config_file self) = true /\
  os' = {| environ := environ os;
           files := <[config_file self := JsonFile (JDict (saved_dict self))]>
                      (files os);
           writable := writable os |}.
Proof.
  unfold save. change (CONFIG_PARAMS.*1) with param_names.
  rewrite collect_params_all. simpl.
  destruct (writable os (config_file self)); [|discriminate].
  intros [= <-]. split; reflexivity.
Qed.

End ConfigMore.

Module ConfigMoreSpec.
Import Config ConfigAux ConfigFacts ConfigMore.

(** X6. Loading fails when the resolved file exists but does not hold a
    JSON object: with the [ValueError] of [json.load] when the content is
    not JSON, and with an [AttributeError] (there is no [get]) when it is a
    JSON value other than an object, such as a list or a string.  No
    configuration is produced in either case. *)
Theorem init_rejects_bad_content (HOMEDIR : string) (arg : option string)
    (os : OS) :
  let path := resolve_config_file HOMEDIR arg os in
  (files os !! path = Some NotJson ->
   init HOMEDIR arg os = Raise ValueError) /\
  (forall v, files os !! path = Some (JsonFile v) ->
             (forall d, v ≠ JDict d) ->
             init HOMEDIR arg os = Raise AttributeError).
Proof.
  intros path. subst path. split.
  - intros Hf. unfold init, read_config. rewrite Hf. reflexivity.
  - intros v Hf Hv. unfold init, read_config. rewrite Hf.
    destruct v; try reflexivity. exfalso. exact (Hv _ eq_refl).
Qed.

Lemma init_rejects_bad_content_witness :
  init "/home/u" (Some "cfg")
    {| environ := ∅; files := {[ "cfg" := NotJson ]};
       writable := fun _ => true |} = Raise ValueError /\
  init "/home/u" (Some "cfg")
    {| environ := ∅; files := {[ "cfg" := JsonFile (JList []) ]};
       writable := fun _ => true |} = Raise AttributeError.
Proof.
  split.
  - apply (init_rejects_bad_content "/home/u" (Some "cfg")
             {| environ := ∅; files := {[ "cfg" := NotJson ]};
                writable := fun _ => true |}).
    reflexivity.
  - destruct (init_rejects_bad_content "/home/u" (Some "cfg")
                {| environ := ∅; files := {[ "cfg" := JsonFile (JList []) ]};
                   writable := fun _ => true |}) as [_ H].
    apply (H (JList [])).
    + reflexivity.
    + intros d Hd. discriminate Hd.
Defined.

(** X7. Loading a JSON object takes each of the four parameters from the
    object when its key is present and from the built-in defaults when it
    is absent.  Presence is what counts: a key present with the value null
    yields [None], so ["url": null] masks the production endpoint. *)
Theorem init_reads_present_keys (HOMEDIR : string) (arg : option string)
    (os : OS) (d : gmap string json) :
  files os !! resolve_config_file HOMEDIR arg os =
    Some (JsonFile (JDict d)) ->
  exists c,
    init HOMEDIR arg os = Ok c /\
    config_file c = resolve_config_file HOMEDIR arg os /\
    (forall k dflt, (k, dflt) ∈ CONFIG_PARAMS ->
       getattr c k = Ok (match d !! k with Some v => v | None => dflt end)) /\
    (d !! "url" = Some JNull -> url c = JNull) /\
    (d !! "url" = None -> url c = JStr "https://earthengine.googleapis.com").
Proof.
  intros Hf. eexists. split; [apply (init_dict _ _ _ _ Hf)|].
  split; [reflexivity|]. split; [|split].
  - intros k dflt Hin. rewrite (getattr_loaded _ _ _ _ Hin).
    destruct (d !! k); reflexivity.
  - intros Hu. simpl. rewrite Hu. reflexivity.
  - intros Hu. simpl. rewrite Hu. reflexivity.
Qed.

Lemma init_reads_present_keys_witness :
  exists c,
    init "/home/u" (Some "cfg")
      {| environ := ∅;
         files := {[ "cfg" := JsonFile (JDict {[ "url" := JNull ]}) ]};
         writable := fun _ => true |} = Ok c /\
    url c = JNull /\ account c = JNull.
Proof.
  destruct (init_reads_present_keys "/home/u" (Some "cfg")
              {| environ := ∅;
                 files := {[ "cfg" := JsonFile (JDict {[ "url" := JNull ]}) ]};
                 writable := fun _ => true |} {[ "url" := JNull ]})
    as (c & Hi & _ & Hk & Hu & _); [vm_compute; reflexivity|].
  exists c. split; [exact Hi|]. split; [apply Hu; reflexivity|].
  specialize (Hk "account" JNull). simpl in Hk.
  assert (Hin : ("account", JNull) ∈ CONFIG_PARAMS).
  { unfold CONFIG_PARAMS. rewrite !elem_of_cons. tauto. }
  specialize (Hk Hin). injection Hk as Hk. exact Hk.
Defined.

(** X8. [save] touches nothing but the configuration file: on an
    unwritable path it raises [IOError]; when it succeeds, the environment
    and every other file are as before. *)
Theorem save_frame (c : CommandLineConfig) (os : OS) :
  (writable os (config_file c) = false -> save c os = Raise IOError) /\
  (forall os', save c os = Ok os' ->
     environ os' = environ os /\
     forall p, p ≠ config_file c -> files os' !! p = files os !! p).
Proof.
  split.
  - intros Hw. unfold save. change (CONFIG_PARAMS.*1) with param_names.
    rewrite collect_params_all. simpl. rewrite Hw. reflexivity.
  - intros os' Hs. apply save_inv in Hs as [_ ->]. simpl.
    split; [reflexivity|]. intros p Hp.
    apply lookup_insert_ne. congruence.
Qed.

Lemma save_frame_witness :
  let c := {| config_file := "cfg"; url := JStr "u"; account := JNull;
              private_key := JNull; refresh_token := JNull |} in
  save c {| environ := ∅; files := ∅; writable := fun _ => false |} =
    Raise IOError.
Proof.
  intros c.
  apply (save_frame c {| environ := ∅; files := ∅;
                         writable := fun _ => false |}).
  reflexivity.
Defined.

(** X9. Saving is idempotent: saving the same configuration again, on the
    file system the first save produced, succeeds and changes nothing. *)
Theorem save_idempotent (c : CommandLineConfig) (os os' : OS) :
  save c os = Ok os' -> save c os' = Ok os'.
Proof.
  intros Hs. apply save_inv in Hs as [Hw ->].
  rewrite save_writable by exact Hw. simpl.
  rewrite insert_insert_eq. reflexivity.
Qed.

Lemma save_idempotent_witness :
  let c := {| config_file := "cfg"; url := JStr "u"; account := JNull;
              private_key := JNull; refresh_token := JStr "t" |} in
  let os := {| environ := ∅; files := ∅; writable := fun _ => true |} in
  exists os', save c os = Ok os' /\ save c os' = Ok os'.
Proof.
  intros c os. eexists. split; [reflexivity|].
  apply (save_idempotent c os). reflexivity.
Defined.

(** X10. Save, load, save.  After a configuration has been saved and
    loaded back, saving again rewrites the same file when [url] was not
    [None]: the loaded configuration is the saved one.  When [url] was
    [None] it was left out of the file, loading puts the production endpoint
    in its place, and the second save adds the key ["url"] with that value
    to the file, the other keys staying as they were. *)
Theorem resave_after_reload (HOMEDIR : string) (c : CommandLineConfig)
    (os os' : OS) (arg : option string) :
  save c os = Ok os' ->
  resolve_config_file HOMEDIR arg os' = config_file c ->
  exists c' d,
    init HOMEDIR arg os' = Ok c' /\
    files os' !! config_file c = Some (JsonFile (JDict d)) /\
    (url c ≠ JNull -> c' = c /\ save c' os' = Ok os') /\
    (url c = JNull ->
       d !! "url" = None /\
       url c' = JStr "https://earthengine.googleapis.com" /\
       exists d2 os2,
         save c' os' = Ok os2 /\
         files os2 !! config_file c = Some (JsonFile (JDict d2)) /\
         d2 !! "url" = Some (JStr "https://earthengine.googleapis.com") /\
         forall k, k ≠ "url" -> d2 !! k = d !! k).
Proof.
  intros Hs Hpath. apply save_inv in Hs as [Hw ->].
  assert (Hfile :
    <[config_file c := JsonFile (JDict (saved_dict c))]> (files os)
      !! config_file c = Some (JsonFile (JDict (saved_dict c))))
    by apply lookup_insert_eq.
  exists (loaded (config_file c) (saved_dict c)), (saved_dict c).
  split.
  { pose proof (init_dict HOMEDIR arg
      {| environ := environ os;
         files := <[config_file c := JsonFile (JDict (saved_dict c))]>
                    (files os);
         writable := writable os |} (saved_dict c)) as Hinit.
    rewrite Hpath in Hinit. exact (Hinit Hfile). }
  split; [exact Hfile|]. rewrite reload_saved. split.
  - intros Hu. apply is_not_None_true in Hu. rewrite Hu.
    assert (Hc : {| config_file := config_file c; url := url c;
                    account := account c; private_key := private_key c;
                    refresh_token := refresh_token c |} = c)
      by (destruct c; reflexivity).
    rewrite Hc. split; [reflexivity|].
    rewrite save_writable by exact Hw. simpl.
    rewrite insert_insert_eq. reflexivity.
  - intros Hu. rewrite Hu. simpl. split.
    { destruct (saved_dict c !! "url") as [v|] eqn:Hv; [|reflexivity].
      apply lookup_saved_dict in Hv as [Hg Hnn]. simpl in Hg.
      injection Hg as Hg. congruence. }
    split; [reflexivity|].
    eexists _, _. split; [apply save_writable; exact Hw|]. simpl.
    split; [apply lookup_insert_eq|].
    unfold saved_dict. simpl. rewrite Hu.
    rewrite !lookup_put, lookup_empty. split.
    + repeat (case_decide; try congruence). reflexivity.
    + intros k Hk. rewrite !lookup_put, lookup_empty. simpl.
      repeat (case_decide; try congruence).
Qed.

Lemma resave_after_reload_witness :
  let c := {| config_file := "cfg"; url := JNull; account := JStr "a";
              private_key := JNull; refresh_token := JNull |} in
  let os := {| environ := ∅; files := ∅; writable := fun _ => true |} in
  exists os' c' d,
    save c os = Ok os' /\
    init "/home/u" (Some "cfg") os' = Ok c' /\
    files os' !! "cfg" = Some (JsonFile (JDict d)) /\
    d !! "url" = None /\
    url c' = JStr "https://earthengine.googleapis.com".
Proof.
  intros c os.
  destruct (resave_after_reload "/home/u" c os
              {| environ := ∅;
                 files := {[ "cfg" := JsonFile (JDict (saved_dict c)) ]};
                 writable := fun _ => true |} (Some "cfg"))
    as (c' & d & Hi & Hf & _ & Hnull).
  - reflexivity.
  - reflexivity.
  - destruct (Hnull eq_refl) as (Hd & Hu & _).
    eexists _, c', d. split; [reflexivity|].
    split; [exact Hi|]. split; [exact Hf|]. split; [exact Hd | exact Hu].
Defined.

(** X11. With no file at the resolved path, loading and then initialising
    the session uses the persistent credentials against the production
    endpoint, whatever the path argument and the environment are. *)
Theorem no_file_persistent (HOMEDIR CLIENT_ID CLIENT_SECRET : string)
    (arg : option string) (os : OS) :
  files os !! resolve_config_file HOMEDIR arg os = None ->
  exists c,
    init HOMEDIR arg os = Ok c /\
    ee_init CLIENT_ID CLIENT_SECRET c =
      Initialize Persistent (JStr "https://earthengine.googleapis.com").
Proof.
  intros Hf. eexists. split; [apply (init_missing _ _ _ Hf)|]. reflexivity.
Qed.

Lemma no_file_persistent_witness :
  exists c,
    init "/home/u" None
      {| environ := ∅; files := ∅; writable := fun _ => true |} = Ok c /\
    ee_init "id" "secret" c =
      Initialize Persistent (JStr "https://earthengine.googleapis.com").
Proof.
  apply (no_file_persistent "/home/u" "id" "secret" None
           {| environ := ∅; files := ∅; writable := fun _ => true |}).
  reflexivity.
Defined.

(** X12. The order in which the entries of the dict [CONFIG_PARAMS] are
    visited, which Python leaves unspecified, is immaterial: loading sets
    the same attributes and saving collects the same dict for every order
    of the four parameters. *)
Theorem params_order_irrelevant (config : json) (self : CommandLineConfig)
    (params : list (string * json)) (keys : list string) :
  params ≡ₚ CONFIG_PARAMS ->
  keys ≡ₚ CONFIG_PARAMS.*1 ->
  set_params config params self = set_params config CONFIG_PARAMS self /\
  collect_params self keys ∅ = collect_params self (CONFIG_PARAMS.*1) ∅.
Proof.
  intros Hparams Hkeys. split.
  - symmetry in Hparams. apply permutations_Permutation in Hparams.
    vm_compute in Hparams.
    repeat (apply elem_of_cons in Hparams as [->|Hparams];
            [destruct config; reflexivity|]).
    apply elem_of_nil in Hparams. contradiction.
  - change (CONFIG_PARAMS.*1) with param_names in *.
    assert (Hall : Forall (fun key => key ∈ param_names) param_names)
      by (apply Forall_forall; auto).
    assert (Hall' : Forall (fun key => key ∈ param_names) keys)
      by (rewrite Hkeys; exact Hall).
    destruct (collect_params_lookup self keys ∅ Hall') as (m1 & -> & H1).
    destruct (collect_params_lookup self param_names ∅ Hall)
      as (m2 & -> & H2).
    f_equal. apply map_eq. intros k. rewrite H1, H2.
    destruct (getattr self k); try reflexivity.
    destruct (decide (k ∈ keys)) as [Hin|Hnin];
      destruct (decide (k ∈ param_names)) as [Hin'|Hnin'];
      try reflexivity; exfalso.
    + apply Hnin'. rewrite <- Hkeys. exact Hin.
    + apply Hnin. rewrite Hkeys. exact Hin'.
Qed.

Lemma params_order_irrelevant_witness :
  let c := {| config_file := "cfg"; url := JStr "u"; account := JStr "a";
              private_key := JNull; refresh_token := JStr "t" |} in
  set_params (JDict {[ "account" := JStr "b" ]}) (reverse CONFIG_PARAMS) c =
    set_params (JDict {[ "account" := JStr "b" ]}) CONFIG_PARAMS c /\
  collect_params c (reverse (CONFIG_PARAMS.*1)) ∅ =
    collect_params c (CONFIG_PARAMS.*1) ∅.
Proof.
  intros c.
  apply (params_order_irrelevant (JDict {[ "account" := JStr "b" ]}) c
           (reverse CONFIG_PARAMS) (reverse (CONFIG_PARAMS.*1))).
  - apply reverse_Permutation.
  - apply reverse_Permutation.
Defined.

End ConfigMoreSpec.

(* ===================================================================== *)
(** * Further properties of the waiters                                   *)
(* ===================================================================== *)

Module WaiterMore.
Import Waiter WaiterAux WaiterAux2 WaiterFacts MultiFacts.
Local Open Scope Q_scope.

(** ** Counting polls and sleeps *)

Lemma polls_cons_fetch a r log : polls (Fetch a r :: log) = S (polls log).
Proof. reflexivity. Qed.

Lemma polls_progress id lp now st e last log :
  polls (progress_lines id lp now st e last ++ log) = polls log.
Proof.
  unfold progress_lines. destruct (progress_due lp e last); reflexivity.
Qed.






Lemma Qnat_pos n : (0 < n)%nat -> 1 <= Qnat n.
Proof.
  intros H. assert (H1 : Qnat 1 == 1) by reflexivity.
  pose proof (Qnat_le 1 n H). lra.
Qed.


(** ** A task that never reaches a terminal state *)

Lemma wait_loop_timed_out svc id timeout lp :
  (forall k t, exists s rest,
      svc k t (OneId id) = inr (s :: rest) /\ finished (state s) = false) ->
  forall n fuel start last w,
  (n < fuel)%nat ->
  timeout - (clock w - start) <= 10 * Qnat n ->
  ((0 < n)%nat -> 10 * Qnat n - 10 < timeout - (clock w - start)) ->
  exists e w' log,
    wait_loop svc id timeout lp fuel start last w = (Ok (Broke e), w', log) /\
    polls log = S n.
Proof.
  intros Hsvc.
  induction n as [|n IH]; intros fuel start last w Hfuel Hle Hgt;
    (destruct fuel as [|f]; [lia|]);
    rewrite wait_loop_unfold; cbv zeta;
    destruct (Hsvc (fetches w) (clock w)) as (s & rest & -> & ->).
  - assert (H0 : Qnat 0 == 0) by reflexivity.
    assert (Hb : Qgtb (timeout - (clock w - start)) 0 = false)
      by (apply Qgtb_false; lra).
    rewrite Hb. eexists _, _, _. split; [reflexivity|].
    rewrite polls_cons_fetch.
    rewrite <- (app_nil_r (progress_lines _ _ _ _ _ _)).
    rewrite polls_progress. reflexivity.
  - pose proof (Qnat_S n) as HS. pose proof (Qnat_nonneg n) as Hn0.
    specialize (Hgt ltac:(lia)).
    assert (Hb : Qgtb (timeout - (clock w - start)) 0 = true)
      by (apply Qgtb_true; lra).
    rewrite Hb.
    destruct (IH f start (next_check lp (clock w - start) last)
                {| clock := clock w + Qmin 10 (timeout - (clock w - start));
                   fetches := S (fetches w) |})
      as (e & w' & log & Hrun & Hpolls).
    + lia.
    + simpl. destruct (Qmin_10_cases (timeout - (clock w - start)))
        as [[H1 H2]|[H1 H2]]; lra.
    + intros Hpos. pose proof (Qnat_pos n Hpos). simpl.
      destruct (Qmin_10_cases (timeout - (clock w - start)))
        as [[H1 H2]|[H1 H2]]; lra.
    + rewrite Hrun. eexists _, _, _. split; [reflexivity|].
      rewrite polls_cons_fetch, polls_progress.
      change (polls (Sleep ?d :: log)) with (polls log).
      rewrite Hpolls. reflexivity.
Qed.

Lemma polls_bound_tight timeout :
  let n := Z.to_nat (Qceiling (timeout / 10)) in
  (0 < n)%nat -> 10 * Qnat n - 10 < timeout.
Proof.
  intros n Hn. subst n.
  pose proof (Qceiling_lt (timeout / 10)) as Hlt.
  assert (H3 : 10 * (timeout / 10) == timeout)
    by (apply Qmult_div_r; discriminate).
  assert (Hq : Qnat (Z.to_nat (Qceiling (timeout / 10))) ==
               inject_Z (Qceiling (timeout / 10) - 1) + 1).
  { unfold Qnat. rewrite Z2Nat.id by lia.
    change 1 with (inject_Z 1). rewrite <- inject_Z_plus.
    replace (Qceiling (timeout / 10) - 1 + 1)%Z
      with (Qceiling (timeout / 10)) by lia.
    reflexivity. }
  lra.
Qed.

(** ** What the loop emits *)

Lemma wait_loop_events svc id timeout lp fuel :
  forall start last w res w' log,
  wait_loop svc id timeout lp fuel start last w = (res, w', log) ->
  Forall (loop_event id) log.
Proof.
  induction fuel as [|f IH]; intros start last w res w' log.
  - intros [= <- <- <-]. constructor.
  - rewrite wait_loop_unfold; cbv zeta.
    destruct (svc (fetches w) (clock w) (OneId id)) as [e|[|s l]].
    + intros [= <- <- <-]. repeat constructor.
    + intros [= <- <- <-]. repeat constructor.
    + unfold progress_lines. destruct (finished (state s)).
      { intros [= <- <- <-]. unfold ending_lines.
        destruct (message_truthy (error_message s)); repeat constructor. }
      destruct (Qgtb (timeout - (clock w - start)) 0).
      * match goal with
        | |- context [wait_loop ?a ?b ?c ?d ?n ?s ?l ?w] =>
            specialize (IH s l w);
            destruct (wait_loop a b c d n s l w) as [[res1 w1] log1]
        end.
        intros [= <- <- <-]. specialize (IH _ _ _ eq_refl).
        destruct (progress_due lp _ _); simpl;
          repeat (apply Forall_cons_2; [reflexivity || exact I|]); exact IH.
      * intros [= <- <- <-].
        destruct (progress_due lp _ _); repeat constructor.
Qed.

(** ** A fetch that fails *)

Lemma wait_loop_raise svc id timeout lp fuel :
  forall start last w ex w' log,
  wait_loop svc id timeout lp fuel start last w = (Raise ex, w', log) ->
  exists pre r,
    log = pre ++ [Fetch (OneId id) r] /\
    Forall waiting pre /\
    (r = inl ex \/ (r = inr [] /\ ex = IndexError)).
Proof.
  induction fuel as [|f IH]; intros start last w ex w' log.
  - intros [=].
  - rewrite wait_loop_unfold; cbv zeta.
    destruct (svc (fetches w) (clock w) (OneId id)) as [e|[|s l]].
    + intros [= <- <- <-]. exists [], (inl e).
      split; [reflexivity|]. split; [constructor | left; reflexivity].
    + intros [= <- <- <-]. exists [], (inr []).
      split; [reflexivity|]. split; [constructor | right; split; reflexivity].
    + destruct (finished (state s)) eqn:Hfin; [intros [=]|].
      destruct (Qgtb (timeout - (clock w - start)) 0); [|intros [=]].
      match goal with
      | |- context [wait_loop ?a ?b ?c ?d ?n ?s ?l ?w] =>
          specialize (IH s l w);
          destruct (wait_loop a b c d n s l w) as [[res1 w1] log1]
      end.
      intros [= -> <- <-].
      destruct (IH _ _ _ eq_refl) as (pre & r & -> & Hpre & Hr).
      exists (Fetch (OneId id) (inr (s :: l))
              :: progress_lines id lp (clock w) (state s) (clock w - start)
                   last
              ++ Sleep (Qmin 10 (timeout - (clock w - start))) :: pre), r.
      split; [simpl; rewrite <- app_assoc; reflexivity|].
      split; [|exact Hr].
      apply Forall_cons_2; [exact Hfin|]. apply Forall_app. split.
      * unfold progress_lines. destruct (progress_due lp _ _);
          repeat constructor.
      * apply Forall_cons_2; [exact I | exact Hpre].
Qed.

(** ** Times of the progress lines *)

Lemma wait_loop_stamps svc id timeout lp fuel :
  forall start last w res w' log,
  within_timeout timeout (clock w - start) ->
  wait_loop svc id timeout lp fuel start last w = (res, w', log) ->
  Forall (fun t => t <= start + Qmax 0 timeout) (progress_stamps log).
Proof.
  induction fuel as [|f IH]; intros start last w res w' log Hin.
  - intros [= <- <- <-]. constructor.
  - rewrite wait_loop_unfold; cbv zeta.
    destruct (svc (fetches w) (clock w) (OneId id)) as [e|[|s l]].
    + intros [= <- <- <-]. constructor.
    + intros [= <- <- <-]. constructor.
    + unfold progress_lines. destruct (finished (state s)).
      { intros [= <- <- <-]. unfold ending_lines.
        destruct (message_truthy (error_message s)); constructor. }
      assert (Hnow : clock w <= start + Qmax 0 timeout)
        by (destruct Hin; lra).
      destruct (Qgtb (timeout - (clock w - start)) 0) eqn:Hgt.
      * apply Qgtb_true in Hgt.
        match goal with
        | |- context [wait_loop ?a ?b ?c ?d ?n ?s ?l ?w] =>
            specialize (IH s l w);
            destruct (wait_loop a b c d n s l w) as [[res1 w1] log1]
        end.
        intros [= <- <- <-].
        assert (Hin' : within_timeout timeout
                  (clock w + Qmin 10 (timeout - (clock w - start))
                   - start)).
        { destruct Hin as [Hin0 Hin1]. unfold within_timeout.
          pose proof (Q.le_max_r 0 timeout).
          destruct (Qmin_10_cases (timeout - (clock w - start)))
            as [[H1 H2]|[H1 H2]]; split; lra. }
        specialize (IH _ _ _ Hin' eq_refl).
        destruct (progress_due lp _ _); simpl;
          [apply Forall_cons_2; [exact Hnow | exact IH] | exact IH].
      * intros [= <- <- <-].
        destruct (progress_due lp _ _); simpl; repeat constructor.
        exact Hnow.
Qed.

Lemma spaced_count stamps : forall prev bound,
  prev <= bound ->
  spaced prev stamps ->
  Forall (fun t => t <= bound) stamps ->
  30 * Qnat (length stamps) <= bound - prev.
Proof.
  induction stamps as [|t rest IH]; intros prev bound Hprev Hsp Hall.
  - assert (H0 : Qnat 0 == 0) by reflexivity. simpl. lra.
  - destruct Hsp as [Hgap Hsp]. apply Forall_cons in Hall as [Ht Hall].
    specialize (IH t bound Ht Hsp Hall).
    pose proof (Qnat_S (length rest)) as HS. simpl length. lra.
Qed.

Lemma progress_stamps_snoc_timeout log id e :
  progress_stamps (log ++ [Print (TimedOut id e)]) = progress_stamps log.
Proof.
  induction log as [|[a r|d|[]|t r lg] log IH]; simpl; congruence.
Qed.

(** ** The progress flag *)

Lemma without_progress_snoc_timeout log id e :
  without_progress (log ++ [Print (TimedOut id e)]) =
    without_progress log ++ [Print (TimedOut id e)].
Proof.
  induction log as [|[a r|d|[]|t r lg] log IH]; simpl; congruence.
Qed.

Lemma wait_loop_without_progress svc id timeout fuel :
  forall start last1 last2 w,
  wait_loop svc id timeout false fuel start last2 w =
    ((wait_loop svc id timeout true fuel start last1 w).1.1,
     (wait_loop svc id timeout true fuel start last1 w).1.2,
     without_progress (wait_loop svc id timeout true fuel start last1 w).2).
Proof.
  induction fuel as [|f IH]; intros start last1 last2 w.
  - reflexivity.
  - rewrite !wait_loop_unfold; cbv zeta.
    destruct (svc (fetches w) (clock w) (OneId id)) as [e|[|s l]];
      try reflexivity.
    destruct (finished (state s)).
    { unfold ending_lines.
      destruct (message_truthy (error_message s)); reflexivity. }
    destruct (Qgtb (timeout - (clock w - start)) 0).
    + rewrite (IH start (next_check true (clock w - start) last1)
                 (next_check false (clock w - start) last2)).
      destruct (wait_loop svc id timeout true f start
                  (next_check true (clock w - start) last1) _)
        as [[res1 w1] log1].
      unfold progress_lines, progress_due. simpl.
      destruct (Qgeb (clock w - start - last1) 30); reflexivity.
    + unfold progress_lines, progress_due. simpl.
      destruct (Qgeb (clock w - start - last1) 30); reflexivity.
Qed.

(** ** A task that is terminal from some time on *)

Ltac reports_ok Hin :=
  repeat (apply Forall_cons_2;
          [ let e := fresh "e" in
            let Hr := fresh "Hr" in
            intros e Hr; simpl in Hr;
            first [ discriminate Hr | injection Hr as <-; exact Hin ]
          | ]);
  try apply Forall_nil_2.

Lemma wait_loop_latency svc id timeout lp (T : Q) fuel :
  forall start last w res w' log,
  (forall k t, T <= t - start ->
     exists s rest,
       svc k t (OneId id) = inr (s :: rest) /\ finished (state s) = true) ->
  clock w - start < T + 10 ->
  wait_loop svc id timeout lp fuel start last w = (res, w', log) ->
  Forall (fun ev => forall e, reported_elapsed ev = Some e -> e < T + 10)
    log /\
  (forall e, res = Ok (Broke e) -> e < T) /\
  clock w' - start < T + 10.
Proof.
  induction fuel as [|f IH]; intros start last w res w' log Hsvc Hin.
  - intros [= <- <- <-]. split; [constructor|].
    split; [discriminate | exact Hin].
  - rewrite wait_loop_unfold; cbv zeta.
    destruct (svc (fetches w) (clock w) (OneId id)) as [e|[|s l]] eqn:Hr.
    + intros [= <- <- <-].
      split; [|split; [discriminate | exact Hin]]. reports_ok Hin.
    + intros [= <- <- <-].
      split; [|split; [discriminate | exact Hin]]. reports_ok Hin.
    + destruct (finished (state s)) eqn:Hfin.
      { intros [= <- <- <-].
        split; [|split; [discriminate | exact Hin]].
        unfold ending_lines.
        destruct (message_truthy (error_message s)); reports_ok Hin. }
      assert (Hearly : clock w - start < T).
      { destruct (Qlt_le_dec (clock w - start) T) as [Hlt|Hge];
          [exact Hlt|].
        destruct (Hsvc (fetches w) (clock w) Hge) as (s' & r' & Hs' & Hf').
        rewrite Hr in Hs'. injection Hs' as <- <-. congruence. }
      destruct (Qgtb (timeout - (clock w - start)) 0) eqn:Hgt.
      * apply Qgtb_true in Hgt.
        match goal with
        | |- context [wait_loop ?a ?b ?c ?d ?n ?s ?l ?w] =>
            specialize (IH s l w);
            destruct (wait_loop a b c d n s l w) as [[res1 w1] log1]
        end.
        intros [= <- <- <-].
        assert (Hin' : clock w + Qmin 10 (timeout - (clock w - start))
                       - start < T + 10).
        { destruct (Qmin_10_cases (timeout - (clock w - start)))
            as [[H1 H2]|[H1 H2]]; lra. }
        destruct (IH _ _ _ Hsvc Hin' eq_refl) as (IH1 & IH2 & IH3).
        split; [|split; [exact IH2 | exact IH3]]. unfold progress_lines.
        destruct (progress_due lp _ _); simpl;
          reports_ok Hin; exact IH1.
      * intros [= <- <- <-]. split.
        -- unfold progress_lines.
           destruct (progress_due lp _ _); reports_ok Hin.
        -- split; [|exact Hin]. intros e [= <-]. exact Hearly.
Qed.

(** ** Runs of [wait_for_tasks] on a list that is not a single task *)

Lemma wait_for_tasks_run remote timeout lp fuel ids w :
  (polls_bound timeout <= fuel)%nat ->
  length ids ≠ 1%nat ->
  let threads := threads_of remote timeout lp fuel (clock w) 0 ids in
  wait_for_tasks remote timeout lp fuel ids w =
    let '(r, w2, lg) :=
      summarize remote ids
        {| clock := joined_clock (clock w) threads; fetches := fetches w |} in
    (r, w2, map worker_event threads ++ lg).
Proof.
  intros Hfuel Hlen threads.
  pose proof (threads_of_end remote timeout lp fuel (clock w) ids 0%nat
                Hfuel) as Hend.
  unfold wait_for_tasks.
  destruct (Nat.eqb_spec (length ids) 1) as [Heq|_]; [contradiction|].
  unfold bind at 1. rewrite start_all_threads. fold threads.
  unfold bind at 1. rewrite (join_all_threads _ _ Hend).
  destruct (summarize remote ids _) as [[r w2] lg]. reflexivity.
Qed.

Lemma threads_of_lookup remote timeout lp fuel t0 ids : forall j i id,
  ids !! i = Some id ->
  exists r w1 lg,
    wait_for_task (worker_thread remote (j + i)) id timeout lp fuel
      {| clock := t0; fetches := 0 |} = (r, w1, lg) /\
    map worker_event (threads_of remote timeout lp fuel t0 j ids) !! i =
      Some (Worker id r lg).
Proof.
  induction ids as [|id0 rest IH]; intros j i id Hi; [discriminate|].
  simpl.
  destruct (wait_for_task (worker_thread remote j) id0 timeout lp fuel
              {| clock := t0; fetches := 0 |}) as [[r0 w0] lg0] eqn:Hrun0.
  destruct i as [|i]; simpl in *.
  - injection Hi as <-. rewrite Nat.add_0_r. rewrite Hrun0.
    eexists _, _, _. split; reflexivity.
  - destruct (IH (S j) i id Hi) as (r & w1 & lg & Hrun & Hlook).
    replace (j + S i)%nat with (S j + i)%nat by lia.
    eexists _, _, _. split; [exact Hrun | exact Hlook].
Qed.

End WaiterMore.

Module WaiterMoreSpec.
Import Waiter WaiterAux WaiterAux2 WaiterFacts MultiFacts WaiterMore.
Import Binary64Aux.
Local Open Scope Q_scope.



(** X14. The clock and the timeout are whole seconds of magnitude at most
    2^51, and time advances only by the sleeps (a fetch takes no time).
    The wait computed in binary64, as the source computes it, is then the
    wait computed exactly; and when every fetch succeeds and finds the
    task in a state that is not terminal, it makes exactly
    [ceil(timeout / 10) + 1] fetches (one for a timeout of zero or less)
    and ends with the timeout report. *)
Theorem never_terminal_polls (svc : Service) (svc64 : Binary64.Service)
    (task_id : string) (timeout : Q) (log_progress : bool) (fuel : nat)
    (w : World) :
  whole_seconds (clock w) timeout ->
  same_service svc svc64 ->
  (polls_bound timeout <= fuel)%nat ->
  (forall k t, exists s rest,
      svc k t (OneId task_id) = inr (s :: rest) /\
      finished (state s) = false) ->
  computed_alike svc svc64 task_id timeout log_progress fuel w /\
  exists e w' log,
    wait_for_task svc task_id timeout log_progress fuel w =
      (Ok tt, w', log ++ [Print (TimedOut task_id e)]) /\
    polls log = S (Z.to_nat (Qceiling (timeout / 10))).
Proof.
  intros Hwhole Hsame Hfuel Hsvc.
  split; [apply Agreement.whole_seconds_alike; assumption|].
  destruct (wait_loop_timed_out svc task_id timeout log_progress Hsvc
              (Z.to_nat (Qceiling (timeout / 10))) fuel (clock w) 0 w)
    as (e & w' & log & Hrun & Hpolls).
  - unfold polls_bound in Hfuel. lia.
  - pose proof (polls_bound_enough timeout). lra.
  - intros Hpos. pose proof (polls_bound_tight timeout Hpos). lra.
  - exists e, w', log. rewrite wait_for_task_unfold, Hrun.
    split; [reflexivity | exact Hpolls].
Qed.

Lemma never_terminal_polls_witness :
  computed_alike always_running keeps_running "t1" 25 true 4 world0 /\
  exists e w' log,
    wait_for_task always_running "t1" 25 true 4 world0 =
      (Ok tt, w', log ++ [Print (TimedOut "t1" e)]) /\
    polls log = S (Z.to_nat (Qceiling (25 / 10))).
Proof.
  apply (never_terminal_polls always_running keeps_running "t1" 25 true 4
           world0).
  - vm_compute. reflexivity.
  - intros k q a Hq Hr. reflexivity.
  - vm_compute. lia.
  - intros k t. exists RUNNING, []. split; reflexivity.
Defined.

(** X15. The clock and the timeout are whole seconds of magnitude at most
    2^51, and time advances only by the sleeps (a fetch takes no time).
    The wait computed in binary64, as the source computes it, is then the
    wait computed exactly, and a timeout report states exactly the
    timeout: whenever the wait prints that it timed out, the report is for
    the task waited for, the elapsed time in it equals [max(0, timeout)],
    and the wait returns normally. *)
Theorem timeout_report_exact (svc : Service) (svc64 : Binary64.Service)
    (task_id : string) (timeout : Q) (log_progress : bool) (fuel : nat)
    (w : World) (i : string) (e : Q) :
  whole_seconds (clock w) timeout ->
  same_service svc svc64 ->
  Print (TimedOut i e) ∈
    (wait_for_task svc task_id timeout log_progress fuel w).2 ->
  computed_alike svc svc64 task_id timeout log_progress fuel w /\
  i = task_id /\ e == Qmax 0 timeout /\
  (wait_for_task svc task_id timeout log_progress fuel w).1.1 = Ok tt.
Proof.
  intros Hwhole Hsame Hmem.
  split; [apply Agreement.whole_seconds_alike; assumption|].
  revert Hmem. rewrite wait_for_task_unfold.
  destruct (wait_loop svc task_id timeout log_progress fuel (clock w) 0 w)
    as [[r w'] log] eqn:Hloop.
  pose proof (wait_loop_events _ _ _ _ _ _ _ _ _ _ _ Hloop) as Hev.
  assert (Hno : Print (TimedOut i e) ∉ log).
  { intros Hin. rewrite Forall_forall in Hev. exact (Hev _ Hin). }
  assert (Hin0 : within_timeout timeout (clock w - clock w)).
  { pose proof (Q.le_max_l 0 timeout). split; lra. }
  destruct (wait_loop_reports _ _ _ _ _ _ _ _ _ _ _ Hin0 Hloop)
    as (_ & Hbroke & _).
  destruct r as [[|e0]|e0|]; simpl; try (intros Hin; contradiction).
  rewrite elem_of_app, list_elem_of_singleton.
  intros [Hin|[= -> ->]]; [contradiction|].
  destruct (Hbroke e0 eq_refl) as [[H0 H1] H2].
  split; [reflexivity|]. split; [|reflexivity].
  destruct (Q.max_spec 0 timeout) as [[_ Hm]|[_ Hm]]; lra.
Qed.

(** The wait of the witness of X14: its last line is the timeout report,
    after 25 seconds. *)
Lemma timeout_report_exact_witness :
  last (wait_for_task always_running "t1" 25 true 4 world0).2 =
    Some (Print (TimedOut "t1" 25)) /\
  computed_alike always_running keeps_running "t1" 25 true 4 world0 /\
  "t1" = "t1" /\ 25 == Qmax 0 25 /\
  (wait_for_task always_running "t1" 25 true 4 world0).1.1 = Ok tt.
Proof.
  split; [vm_compute; reflexivity|].
  apply (timeout_report_exact always_running keeps_running "t1" 25 true 4
           world0 "t1" 25).
  { vm_compute. reflexivity. }
  { intros k q a Hq Hr. reflexivity. }
  match goal with
  | |- _ ∈ ?l => let l' := eval vm_compute in l in change l with l'
  end.
  rewrite !elem_of_cons.
  repeat (first [left; reflexivity | right]).
Defined.

(** X16. A fetch that fails ends the wait: when a single-task wait raises,
    the last thing it did was a fetch that raised that exception, or that
    returned an empty list (the [IndexError] of [...[0]]), and up to then
    it printed no completion, error or timeout line. *)
Theorem fetch_error_ends_wait (svc : Service) (task_id : string)
    (timeout : Q) (log_progress : bool) (fuel : nat) (w : World)
    (ex : Exn) :
  (wait_for_task svc task_id timeout log_progress fuel w).1.1 = Raise ex ->
  exists pre r,
    (wait_for_task svc task_id timeout log_progress fuel w).2 =
      pre ++ [Fetch (OneId task_id) r] /\
    Forall waiting pre /\
    (r = inl ex \/ (r = inr [] /\ ex = IndexError)).
Proof.
  rewrite wait_for_task_unfold.
  destruct (wait_loop svc task_id timeout log_progress fuel (clock w) 0 w)
    as [[r w'] log] eqn:Hloop.
  destruct r as [[|e0]|e0|]; simpl; try discriminate.
  intros [= ->]. apply (wait_loop_raise _ _ _ _ _ _ _ _ _ _ _ Hloop).
Qed.

Lemma fetch_error_ends_wait_witness :
  exists pre r,
    (wait_for_task fails_at_third_fetch "t1" 60 true 7 world0).2 =
      pre ++ [Fetch (OneId "t1") r] /\
    Forall waiting pre /\
    (r = inl (EEException "unavailable") \/
     (r = inr [] /\ EEException "unavailable" = IndexError)).
Proof.
  apply (fetch_error_ends_wait fails_at_third_fetch "t1" 60 true 7 world0).
  vm_compute. reflexivity.
Defined.

(** X17. The clock and the timeout are whole seconds of magnitude at most
    2^51, and time advances only by the sleeps (a fetch takes no time).
    The wait computed in binary64, as the source computes it, is then the
    wait computed exactly, and it prints at most [max(0, timeout) / 30]
    progress lines: thirty times their number does not exceed the
    timeout. *)
Theorem progress_lines_bounded (svc : Service) (svc64 : Binary64.Service)
    (task_id : string) (timeout : Q) (log_progress : bool) (fuel : nat)
    (w : World) :
  whole_seconds (clock w) timeout ->
  same_service svc svc64 ->
  computed_alike svc svc64 task_id timeout log_progress fuel w /\
  30 * inject_Z (Z.of_nat (length (progress_stamps
         (wait_for_task svc task_id timeout log_progress fuel w).2)))
  <= Qmax 0 timeout.
Proof.
  intros Hwhole Hsame.
  split; [apply Agreement.whole_seconds_alike; assumption|].
  rewrite wait_for_task_unfold.
  destruct (wait_loop svc task_id timeout log_progress fuel (clock w) 0 w)
    as [[r w'] log] eqn:Hloop.
  assert (Hin0 : within_timeout timeout (clock w - clock w)).
  { pose proof (Q.le_max_l 0 timeout). split; lra. }
  pose proof (wait_loop_stamps _ _ _ _ _ _ _ _ _ _ _ Hin0 Hloop) as Hall.
  pose proof (wait_loop_progress_rule _ _ _ _ _ _ _ _ _ _ _ Hloop) as Hrule.
  assert (Hsp : spaced (clock w) (progress_stamps log)).
  { apply (progress_rule_spaced _ _ _ _ _ _ _ _ _ Hrule); [lra|].
    discriminate. }
  assert (Hcount : 30 * Qnat (length (progress_stamps log))
                   <= clock w + Qmax 0 timeout - clock w).
  { apply spaced_count; [|exact Hsp | exact Hall].
    pose proof (Q.le_max_l 0 timeout). lra. }
  unfold Qnat in Hcount.
  destruct r as [[|e0]|e0|]; simpl;
    rewrite ?progress_stamps_snoc_timeout; lra.
Qed.

(** A task that keeps running, waited for 65 seconds with progress
    logging: progress lines at 30 and 60 seconds, and no more than two. *)
Lemma progress_lines_bounded_witness :
  progress_stamps (wait_for_task always_running "t1" 65 true 8 world0).2 =
    [30; 60] /\
  computed_alike always_running keeps_running "t1" 65 true 8 world0 /\
  30 * inject_Z (Z.of_nat (length (progress_stamps
         (wait_for_task always_running "t1" 65 true 8 world0).2)))
  <= Qmax 0 65.
Proof.
  split; [vm_compute; reflexivity|].
  apply (progress_lines_bounded always_running keeps_running "t1" 65 true 8
           world0).
  - vm_compute. reflexivity.
  - intros k q a Hq Hr. reflexivity.
Defined.

(** X18. The progress flag changes nothing but the progress lines: the
    wait without progress logging returns the same result in the same
    final state, and its log is the log of the wait with progress logging
    with the progress lines removed; fetches, sleeps and reports are the
    same. *)
Theorem log_progress_only_adds_lines (svc : Service) (task_id : string)
    (timeout : Q) (fuel : nat) (w : World) :
  wait_for_task svc task_id timeout false fuel w =
    ((wait_for_task svc task_id timeout true fuel w).1.1,
     (wait_for_task svc task_id timeout true fuel w).1.2,
     without_progress (wait_for_task svc task_id timeout true fuel w).2).
Proof.
  rewrite !wait_for_task_unfold.
  rewrite (wait_loop_without_progress svc task_id timeout fuel (clock w) 0 0).
  destruct (wait_loop svc task_id timeout true fuel (clock w) 0 w)
    as [[r w'] log].
  destruct r as [[|e0]|e0|]; simpl; try reflexivity.
  rewrite without_progress_snoc_timeout. reflexivity.
Qed.

(** X19. Detection latency.  The clock and the timeout are whole seconds
    of magnitude at most 2^51, and time advances only by the sleeps (a
    fetch takes no time).  The wait computed in binary64, as the source
    computes it, is then the wait computed exactly.  If from elapsed time
    [T] on every fetch finds the task in a terminal state, the wait is
    over less than [T + 10] seconds after it began, and every elapsed time
    it reports is below [T + 10]; if moreover [T] is within the timeout,
    the wait never reports a timeout. *)
Theorem terminal_task_detected (svc : Service) (svc64 : Binary64.Service)
    (task_id : string) (timeout : Q) (log_progress : bool) (fuel : nat)
    (w : World) (T : Q) :
  whole_seconds (clock w) timeout ->
  same_service svc svc64 ->
  0 <= T ->
  (forall k t, T <= t - clock w ->
     exists s rest,
       svc k t (OneId task_id) = inr (s :: rest) /\
       finished (state s) = true) ->
  let run := wait_for_task svc task_id timeout log_progress fuel w in
  computed_alike svc svc64 task_id timeout log_progress fuel w /\
  slept run.2 < T + 10 /\
  Forall (fun ev => forall e, reported_elapsed ev = Some e -> e < T + 10)
    run.2 /\
  (T <= timeout -> forall i e, Print (TimedOut i e) ∉ run.2).
Proof.
  intros Hwhole Hsame HT Hsvc run. subst run.
  split; [apply Agreement.whole_seconds_alike; assumption|].
  rewrite wait_for_task_unfold.
  destruct (wait_loop svc task_id timeout log_progress fuel (clock w) 0 w)
    as [[r w'] log] eqn:Hloop.
  assert (Hin : clock w - clock w < T + 10) by lra.
  destruct (wait_loop_latency _ _ _ _ _ _ _ _ _ _ _ _ Hsvc Hin Hloop)
    as (Hrep & Hbroke & Hend).
  pose proof (wait_loop_clock _ _ _ _ _ _ _ _ _ _ _ Hloop) as Hclock.
  pose proof (wait_loop_events _ _ _ _ _ _ _ _ _ _ _ Hloop) as Hev.
  assert (Hno : forall i e, Print (TimedOut i e) ∉ log).
  { intros i e Hmem. rewrite Forall_forall in Hev. exact (Hev _ Hmem). }
  assert (Hin0 : within_timeout timeout (clock w - clock w)).
  { pose proof (Q.le_max_l 0 timeout). split; lra. }
  destruct (wait_loop_reports _ _ _ _ _ _ _ _ _ _ _ Hin0 Hloop)
    as (_ & Hbroke2 & _).
  destruct r as [[|e0]|e0|]; simpl;
    try (split; [lra | split; [exact Hrep | intros _; exact Hno]]).
  specialize (Hbroke e0 eq_refl). destruct (Hbroke2 e0 eq_refl) as [_ Hge].
  split; [rewrite slept_app; simpl; lra|]. split.
  - apply Forall_app. split; [exact Hrep|].
    apply Forall_cons_2; [|constructor]. intros e [= <-]. lra.
  - intros Hle. lra.
Qed.

Lemma terminal_task_detected_witness :
  let run := wait_for_task done_after_25 "t1" 100 false 11 world0 in
  computed_alike done_after_25 after_25_done "t1" 100 false 11 world0 /\
  slept run.2 < 25 + 10 /\
  Forall (fun ev => forall e, reported_elapsed ev = Some e -> e < 25 + 10)
    run.2 /\
  (25 <= 100 -> forall i e, Print (TimedOut i e) ∉ run.2).
Proof.
  apply (terminal_task_detected done_after_25 after_25_done "t1" 100 false
           11 world0 25).
  - vm_compute. reflexivity.
  - intros k q a Hq Hr. unfold done_after_25, after_25_done.
    rewrite (Agreement.float_at_least 25 q) by (try assumption; lia).
    reflexivity.
  - vm_compute. intros H; discriminate H.
  - intros k t Ht. exists DONE, []. split; [|reflexivity].
    unfold done_after_25. simpl in Ht.
    assert (Hb : Qle_bool 25 t = true) by (apply Qle_bool_iff; lra).
    rewrite Hb. reflexivity.
Defined.

(** X20. In a wait for several tasks, the worker for the task at position
    [i] of the list does what a single-task wait for that task does, with
    the same timeout and progress flag, on a clock that starts at the
    caller's time: the [i]-th entry of the caller's log is that worker with
    exactly that result and that log, and the worker has ended. *)
Theorem each_task_gets_a_worker (remote : Remote) (timeout : Q)
    (log_progress : bool) (fuel : nat) (task_id_list : list string)
    (w : World) (i : nat) (task_id : string) :
  (polls_bound timeout <= fuel)%nat ->
  length task_id_list ≠ 1%nat ->
  task_id_list !! i = Some task_id ->
  exists r w1 lg,
    wait_for_task (worker_thread remote i) task_id timeout log_progress fuel
      {| clock := clock w; fetches := 0 |} = (r, w1, lg) /\
    (wait_for_tasks remote timeout log_progress fuel task_id_list w).2 !! i
      = Some (Worker task_id r lg) /\
    r ≠ OutOfFuel.
Proof.
  intros Hfuel Hlen Hi.
  destruct (threads_of_lookup remote timeout log_progress fuel (clock w)
              task_id_list 0%nat i task_id Hi) as (r & w1 & lg & Hrun & Hlook).
  simpl in Hrun. exists r, w1, lg. split; [exact Hrun|]. split.
  - rewrite (wait_for_tasks_run _ _ _ _ _ _ Hfuel Hlen). cbv zeta.
    destruct (summarize remote task_id_list _) as [[r2 w2] lg2]. simpl.
    apply lookup_app_l_Some. exact Hlook.
  - pose proof (wait_for_task_fuel (worker_thread remote i) task_id timeout
                  log_progress fuel {| clock := clock w; fetches := 0 |}
                  Hfuel) as Hres.
    rewrite Hrun in Hres. exact Hres.
Qed.

Lemma each_task_gets_a_worker_witness :
  exists r w1 lg,
    wait_for_task (worker_thread stuck_remote 1) "b" 5 false 2
      {| clock := clock world0; fetches := 0 |} = (r, w1, lg) /\
    (wait_for_tasks stuck_remote 5 false 2 ["a"; "b"; "c"] world0).2 !! 1%nat
      = Some (Worker "b" r lg) /\
    r ≠ OutOfFuel.
Proof.
  apply (each_task_gets_a_worker stuck_remote 5 false 2 ["a"; "b"; "c"]
           world0 1 "b").
  - vm_compute. lia.
  - simpl. lia.
  - reflexivity.
Defined.

(** X21. Given an empty list of tasks, [wait_for_tasks] starts no worker
    and never sleeps; it makes the bulk fetch for the empty list at once,
    whatever the timeout, and, when the answer is the empty list, prints a
    summary of four zeros. *)
Theorem empty_task_list (remote : Remote) (timeout : Q)
    (log_progress : bool) (fuel : nat) (w : World) :
  let r := main_thread remote (fetches w) (clock w) (IdList []) in
  let run := wait_for_tasks remote timeout log_progress fuel [] w in
  head run.2 = Some (Fetch (IdList []) r) /\
  run.1.2 = polled w /\
  (r = inr [] ->
   run = (Ok tt, polled w,
          [Fetch (IdList []) r; Print SummaryHeader;
           Print (TasksCompleted 0); Print (TasksFailed 0);
           Print (TasksCancelled 0); Print (TasksIncomplete 0)])).
Proof.
  intros r run. subst r run.
  unfold wait_for_tasks. simpl. unfold bind, ret. simpl.
  rewrite summarize_run. cbv zeta. simpl.
  destruct (main_thread remote (fetches w) (clock w) (IdList []))
    as [e|sl]; simpl.
  - split; [reflexivity|]. split; [reflexivity|]. discriminate.
  - split; [reflexivity|]. split; [reflexivity|].
    intros [= ->]. reflexivity.
Qed.

End WaiterMoreSpec.
